(** * EVTX / BinXml decoder: a shallow embedding of [main_parse_evtx.cpp]

    The development follows the source file top-down: the bounded byte
    reader ([ParseContext]), the UTF-16 to UTF-8 transcoder, the name
    stack, the template cache, the BinXml token decoder with its typed
    argument renderer, and finally the chunk/record walker.

    Conventions.
    - A byte is a [Z] in [0, 256); the 64 KiB chunk buffer is a [list Z].
    - [size_t] and [uint64_t] are [Z] with the wrap-around modulo [2^64]
      written out ([wrap64]); narrower unsigned types likewise.
    - A pointer into the chunk buffer ([const uint8_t* data]) is the index
      of the pointed-to byte in that buffer.
    - A pointer to a [ParseContext] is the index of its frame on the call
      stack (see [ctx_ptr]).
    - A C string is the list of its bytes before the terminating NUL. *)

From Stdlib Require Import ZArith List Lia Bool String Ascii.
From stdpp Require Import base option list gmap.
Import ListNotations.

Local Open Scope Z_scope.

(** ** Machine integers *)

Definition wrap (bits : Z) (x : Z) : Z := x mod 2 ^ bits.
Definition wrap8  : Z -> Z := wrap 8.
Definition wrap16 : Z -> Z := wrap 16.
Definition wrap32 : Z -> Z := wrap 32.
Definition wrap64 : Z -> Z := wrap 64.

(** ** Little-endian loads from the chunk buffer *)

(** Reading through a [uint8_t*] yields a value in [0, 256). *)
Definition byte_at (buf : list Z) (a : Z) : Z := wrap8 (nth (Z.to_nat a) buf 0).

(** [load buf a sz] is [*(T* )(buf + a)] for an unsigned [T] of [sz] bytes
    on a little-endian machine. *)
Fixpoint load (buf : list Z) (a : Z) (sz : nat) : Z :=
  match sz with
  | O => 0
  | S k => byte_at buf a + 256 * load buf (a + 1) k
  end.

(** ** Parse context *)

Inductive XmlParseState : Type :=
  | StateNormal
  | StateInAttribute.

Definition XmlParseState_eqb (a b : XmlParseState) : bool :=
  match a, b with
  | StateNormal, StateNormal => true
  | StateInAttribute, StateInAttribute => true
  | _, _ => false
  end.

(** Address of a [ParseContext] object: every context of the program is a
    local variable of some active call, so its address is the position of
    its frame on the stack of live contexts. *)
Definition ctx_ptr : Type := nat.

Record ParseContext : Type := mkParseContext {
  chunkContext : ctx_ptr;
  data : Z;
  dataLen : Z;
  offset : Z;
  offsetFromChunkStart : Z;
  state : XmlParseState;
  currentTemplatePtr : option Z;   (* key of the pointed-to cache entry *)
  cachedValue : list Z
}.

Definition set_offset (o : Z) (c : ParseContext) : ParseContext :=
  mkParseContext (chunkContext c) (data c) (dataLen c) o
    (offsetFromChunkStart c) (state c) (currentTemplatePtr c) (cachedValue c).

Definition set_dataLen (l : Z) (c : ParseContext) : ParseContext :=
  mkParseContext (chunkContext c) (data c) l (offset c)
    (offsetFromChunkStart c) (state c) (currentTemplatePtr c) (cachedValue c).

Definition set_state (s : XmlParseState) (c : ParseContext) : ParseContext :=
  mkParseContext (chunkContext c) (data c) (dataLen c) (offset c)
    (offsetFromChunkStart c) s (currentTemplatePtr c) (cachedValue c).

Definition set_currentTemplatePtr (p : option Z) (c : ParseContext) : ParseContext :=
  mkParseContext (chunkContext c) (data c) (dataLen c) (offset c)
    (offsetFromChunkStart c) (state c) p (cachedValue c).

Definition set_cachedValue (v : list Z) (c : ParseContext) : ParseContext :=
  mkParseContext (chunkContext c) (data c) (dataLen c) (offset c)
    (offsetFromChunkStart c) (state c) (currentTemplatePtr c) v.

(** A default-initialised [ParseContext] local: its fields are
    indeterminate in C++, and the code assigns each one before reading it. *)
Definition indeterminate : ParseContext :=
  mkParseContext O 0 0 0 0 StateNormal None [].

Definition HaveEnoughData (ctx : ParseContext) (numBytes : Z) : bool :=
  wrap64 (offset ctx + numBytes) <=? dataLen ctx.

Definition SkipBytes (numBytes : Z) (ctx : ParseContext) : ParseContext :=
  set_offset (wrap64 (offset ctx + numBytes)) ctx.

(** [InheritWithOffset this other otherAddr wantedLen]: [other] is the
    pointed-to parent and [otherAddr] the pointer itself. *)
Definition InheritWithOffset (this other : ParseContext) (otherAddr : ctx_ptr)
    (wantedLen : Z) : ParseContext :=
  let dataLen' :=
    if wrap64 (offset other + wantedLen) >? dataLen other then
      if offset other >=? dataLen other then 0
      else wrap64 (dataLen other - offset other)
    else wantedLen in
  mkParseContext otherAddr (data other + offset other) dataLen' 0
    (wrap64 (offset other + offsetFromChunkStart other))
    (state this) (currentTemplatePtr this) [].

Definition UpdateLen (wantedLen : Z) (ctx : ParseContext) : ParseContext :=
  if wantedLen <=? dataLen ctx then set_dataLen wantedLen ctx else ctx.

Section Reader.

(** The chunk buffer every [data] pointer points into. *)
Variable buf : list Z.

(** The copy loop of [ReadData]: [count] values of [sz] bytes each. *)
Fixpoint ReadData_loop (sz : Z) (count : nat) (ctx : ParseContext)
    : list Z * ParseContext :=
  match count with
  | O => ([], ctx)
  | S k =>
      let v := load buf (data ctx + offset ctx) (Z.to_nat sz) in
      let '(vs, ctx') :=
        ReadData_loop sz k (set_offset (wrap64 (offset ctx + sz)) ctx) in
      (v :: vs, ctx')
  end.

(** [ReadData<c>(result, count)] with [sz = sizeof(c)]; [None] is the
    [false] return, and the context is handed back in both cases. *)
Definition ReadData (sz count : Z) (ctx : ParseContext)
    : option (list Z) * ParseContext :=
  if negb (HaveEnoughData ctx (wrap64 (sz * count))) then (None, ctx)
  else
    let '(vs, ctx') := ReadData_loop sz (Z.to_nat count) ctx in
    (Some vs, ctx').

(** The common call [ReadData(&x)] of a single value. *)
Definition ReadOne (sz : Z) (ctx : ParseContext) : option Z * ParseContext :=
  match ReadData sz 1 ctx with
  | (Some vs, ctx') => (Some (nth 0 vs 0), ctx')
  | (None, ctx') => (None, ctx')
  end.

End Reader.

(** ** C strings and character buffers *)

(** The bytes of a buffer up to its first NUL. *)
Fixpoint cstr (b : list Z) : list Z :=
  match b with
  | [] => []
  | c :: r => if c =? 0 then [] else c :: cstr r
  end.

(** A string literal of the source as a C string. *)
Definition lit (s : string) : list Z :=
  map (fun a => Z.of_N (N_of_ascii a)) (list_ascii_of_string s).

Definition streq (a b : list Z) : bool := bool_decide (a = b).

(** [buffer[i] = v] on a character array.  Out of range the C++ program is
    undefined; the model leaves the array as it is. *)
Definition store (buffer : list Z) (i v : Z) : list Z :=
  <[Z.to_nat i := wrap8 v]> buffer.

Definition store_all (buffer : list Z) (ws : list (Z * Z)) : list Z :=
  fold_left (fun b w => store b (fst w) (snd w)) ws buffer.

(** ** UTF-16 to UTF-8 *)

(** The [for] loop writing the continuation bytes, from index
    [charLength - 1] down to [1]; returns the writes and the shifted [w]. *)
Fixpoint UTF16ToUTF8_tail (charIndex : nat) (w bufferUsed : Z)
    : list (Z * Z) * Z :=
  match charIndex with
  | O => ([], w)
  | S k =>
      let wr := (bufferUsed + Z.of_nat (S k), Z.lor 0x80 (Z.land w 0x3F)) in
      let '(ws, w') := UTF16ToUTF8_tail k (Z.shiftr w 6) bufferUsed in
      (wr :: ws, w')
  end.

(** The stores [UTF16ToUTF8] performs, as (index, value) pairs in program
    order, and the new value of [*bufferUsed]. *)
Definition UTF16ToUTF8_writes (w bufferUsed bufferSize : Z)
    : list (Z * Z) * Z :=
  let '(charLength, msb, mask) := (1, 0, 0) in
  let '(charLength, msb, mask) :=
    if w >? 0x7F then (charLength + 1, Z.lor msb (0x80 + 0x40), 0xFF)
    else (charLength, msb, mask) in
  let '(charLength, msb, mask) :=
    if w >? 0x7FF then (charLength + 1, Z.lor msb 0x20, 0x1F)
    else (charLength, msb, mask) in
  let '(charLength, msb, mask) :=
    if w >? 0xFFFF then (charLength + 1, Z.lor msb 0x10, 0x0F)
    else (charLength, msb, mask) in
  if wrap64 (bufferUsed + charLength) >=? bufferSize then ([], bufferUsed)
  else if charLength =? 1 then ([(bufferUsed, w)], wrap64 (bufferUsed + 1))
  else
    let '(ws, w') := UTF16ToUTF8_tail (Z.to_nat (charLength - 1)) w bufferUsed in
    (ws ++ [(bufferUsed, Z.lor msb (Z.land w' mask))],
     wrap64 (bufferUsed + charLength)).

Definition UTF16ToUTF8 (w : Z) (buffer : list Z) (bufferUsed bufferSize : Z)
    : list Z * Z :=
  let '(ws, used') := UTF16ToUTF8_writes w bufferUsed bufferSize in
  (store_all buffer ws, used').

(** ** Length-prefixed UTF-16LE strings and names *)

Section Strings.

Variable buf : list Z.

(** The transcoding loop of [ReadPrefixedUnicodeString]; [rem] counts the
    units still allowed by [idx < nameCharCnt].  Returns the buffer, the
    bytes used and the final [idx]. *)
Fixpoint ReadUnits (rem : nat) (idx : Z) (nameBuffer : list Z)
    (nameBufferUsed nameBufferSize : Z) (ctx : ParseContext)
    : option (list Z * Z * Z) * ParseContext :=
  match rem with
  | O => (Some (nameBuffer, nameBufferUsed, idx), ctx)
  | S r =>
      if idx * 2 <? wrap64 (nameBufferSize - 1) then
        match ReadOne buf 2 ctx with
        | (None, ctx') => (None, ctx')
        | (Some w, ctx') =>
            let '(b', u') :=
              UTF16ToUTF8 w nameBuffer nameBufferUsed nameBufferSize in
            ReadUnits r (idx + 1) b' u' nameBufferSize ctx'
        end
      else (Some (nameBuffer, nameBufferUsed, idx), ctx)
  end.

Definition ReadPrefixedUnicodeString (nameBuffer : list Z)
    (nameBufferSize : Z) (isNullTerminated : bool) (ctx : ParseContext)
    : option (list Z) * ParseContext :=
  match ReadOne buf 2 ctx with
  | (None, ctx1) => (None, ctx1)
  | (Some nameCharCnt, ctx1) =>
      match ReadUnits (Z.to_nat nameCharCnt) 0 nameBuffer 0 nameBufferSize ctx1 with
      | (None, ctx2) => (None, ctx2)
      | (Some (b, used, idx), ctx2) =>
          let used' :=
            if used >=? nameBufferSize then wrap64 (nameBufferSize - 1)
            else used in
          (Some (store b used' 0),
           SkipBytes
             ((nameCharCnt - idx + (if isNullTerminated then 1 else 0)) * 2)
             ctx2)
      end
  end.

(** [*p] for a context pointer [p], seen from the function whose own
    context [ctx] lives at address [length frames]; [frames] are the
    contexts of the suspended callers, which nothing writes to while the
    callee runs. *)
Definition deref (frames : list ParseContext) (ctx : ParseContext)
    (p : ctx_ptr) : ParseContext :=
  if (p =? length frames)%nat then ctx else nth p frames indeterminate.

Definition ReadName (frames : list ParseContext) (nameBuffer : list Z)
    (nameBufferSize : Z) (ctx : ParseContext)
    : option (list Z) * ParseContext :=
  let temporaryCtx := deref frames ctx (chunkContext ctx) in
  if nameBufferSize <? 2 then (None, ctx)
  else
    let nameBuffer := store nameBuffer 0 0 in
    match ReadOne buf 4 ctx with
    | (None, ctx1) => (None, ctx1)
    | (Some chunkOffset, ctx1) =>
        if negb (wrap64 (offset ctx1 + offsetFromChunkStart ctx1) =? chunkOffset)
        then
          (* the name is read through the copy; [ctx] only took the offset *)
          let t0 := set_offset chunkOffset temporaryCtx in
          match ReadOne buf 4 t0 with
          | (None, _) => (None, ctx1)
          | (Some d, t1) =>
              match ReadOne buf 2 t1 with
              | (None, _) => (None, ctx1)
              | (Some nameHash, t2) =>
                  match ReadPrefixedUnicodeString nameBuffer nameBufferSize true t2 with
                  | (None, _) => (None, ctx1)
                  | (Some b, _) => (Some b, ctx1)
                  end
              end
          end
        else
          match ReadOne buf 4 ctx1 with
          | (None, c2) => (None, c2)
          | (Some d, c2) =>
              match ReadOne buf 2 c2 with
              | (None, c3) => (None, c3)
              | (Some nameHash, c3) =>
                  ReadPrefixedUnicodeString nameBuffer nameBufferSize true c3
              end
          end
    end.

End Strings.

(** ** Name stack *)

Definition MAX_NAME_STACK_DEPTH : Z := 20.
Definition INVALID_STACK_DEPTH : Z := -1.
Definition maxNameStackDepth : nat := 20.

(** [names] is the vector of [NameStackElement]s (each a C string in a
    256-byte array), [nameStackPtr] the signed index of the top. *)
Record NameStack : Type := mkNameStack {
  names : list (list Z);
  nameStackPtr : Z
}.

(** The constructor [NameStack()]. *)
Definition NameStack_new : NameStack :=
  mkNameStack (repeat [] maxNameStackDepth) INVALID_STACK_DEPTH.

Definition NameStack_Reset (s : NameStack) : NameStack :=
  mkNameStack (names s) INVALID_STACK_DEPTH.

(** [strncpy] into the 256-byte slot followed by [name[255] = 0]. *)
Definition PushName (name : list Z) (s : NameStack) : NameStack :=
  if nameStackPtr s + 1 >=? MAX_NAME_STACK_DEPTH then s
  else
    let p := nameStackPtr s + 1 in
    mkNameStack (<[Z.to_nat p := firstn 255 name]> (names s)) p.

Definition PopName (s : NameStack) : NameStack :=
  if nameStackPtr s >? INVALID_STACK_DEPTH
  then mkNameStack (names s) (nameStackPtr s - 1)
  else s.

(** [None] is the [NULL] return. *)
Definition GetName (s : NameStack) : option (list Z) :=
  if (nameStackPtr s <=? INVALID_STACK_DEPTH)
     || (nameStackPtr s >=? MAX_NAME_STACK_DEPTH)
  then None
  else Some (nth (Z.to_nat (nameStackPtr s)) (names s) []).

Definition GetUpperName (s : NameStack) : option (list Z) :=
  if (nameStackPtr s <=? INVALID_STACK_DEPTH)
     || (nameStackPtr s >=? MAX_NAME_STACK_DEPTH)
  then None
  else if nameStackPtr s <? 1 then None
  else Some (nth (Z.to_nat (nameStackPtr s - 1)) (names s) []).

(** Number of names on the stack. *)
Definition depth (s : NameStack) : Z := nameStackPtr s + 1.

(** The operations of the class, for statements over call sequences. *)
Inductive NameStackOp : Type :=
  | OpReset
  | OpPushName (name : list Z)
  | OpPopName
  | OpGetName
  | OpGetUpperName.

Definition run_op (op : NameStackOp) (s : NameStack) : NameStack :=
  match op with
  | OpReset => NameStack_Reset s
  | OpPushName name => PushName name s
  | OpPopName => PopName s
  | OpGetName => let _ := GetName s in s
  | OpGetUpperName => let _ := GetUpperName s in s
  end.

Definition run_ops (ops : list NameStackOp) (s : NameStack) : NameStack :=
  fold_left (fun st op => run_op op st) ops s.

(** ** Template cache *)

Record TemplateArgPair : Type := mkTemplateArgPair {
  arg_key : list Z;
  arg_type : Z
}.

Record TemplateFixedPair : Type := mkTemplateFixedPair {
  fixed_key : list Z;
  fixed_value : list Z
}.

Record TemplateDescription : Type := mkTemplateDescription {
  shortID : Z;
  fixed : list TemplateFixedPair;
  args : gmap Z TemplateArgPair
}.

(** [TemplateDescription{}]. *)
Definition TemplateDescription_new : TemplateDescription :=
  mkTemplateDescription 0 [] ∅.

Definition RegisterFixedPair (key value : list Z) (t : TemplateDescription)
    : TemplateDescription :=
  mkTemplateDescription (shortID t)
    (fixed t ++ [mkTemplateFixedPair key value]) (args t).

(** [key] may be [NULL], which registers the empty string;
    [unordered_map::emplace] keeps an entry that is already there. *)
Definition RegisterArgPair (key : option (list Z)) (type argIdx : Z)
    (t : TemplateDescription) : TemplateDescription :=
  let k := match key with Some k => k | None => [] end in
  match args t !! argIdx with
  | Some _ => t
  | None =>
      mkTemplateDescription (shortID t) (fixed t)
        (<[argIdx := mkTemplateArgPair k type]> (args t))
  end.

(** ** Process-wide state and standard output *)

Inductive PrintfArg : Type :=
  | PStr (s : list Z)
  | PNum (n : Z).

(** One [printf] call: its format and its arguments. *)
Record Printf : Type := mkPrintf {
  fmt : string;
  pargs : list PrintfArg
}.

(** The globals [nameStack], [ids] (its map [knownIDs]) and
    [eventDescriptionHashTable], and what was written to stdout. *)
Record Globals : Type := mkGlobals {
  nameStack : NameStack;
  knownIDs : gmap Z TemplateDescription;
  eventDescriptionHashTable : gmap Z (list Z);
  stdout : list Printf
}.

Definition set_nameStack (s : NameStack) (g : Globals) : Globals :=
  mkGlobals s (knownIDs g) (eventDescriptionHashTable g) (stdout g).

Definition set_knownIDs (m : gmap Z TemplateDescription) (g : Globals) : Globals :=
  mkGlobals (nameStack g) m (eventDescriptionHashTable g) (stdout g).

Definition emit (p : Printf) (g : Globals) : Globals :=
  mkGlobals (nameStack g) (knownIDs g) (eventDescriptionHashTable g)
    (stdout g ++ [p]).

Definition ResetTemplates (g : Globals) : Globals := set_knownIDs ∅ g.

Definition logonTypes : list (option (list Z)) :=
  [ None; None; Some (lit "Interactive"); Some (lit "Network");
    Some (lit "Batch"); Some (lit "Service"); None; Some (lit "Unlock");
    Some (lit "NetworkCleartext"); Some (lit "NewCredentials");
    Some (lit "RemoteInteractive"); Some (lit "CachedInteractive") ].

(** ** The decoder monad

    Every decoder function takes the context pointer and returns [bool];
    it reads and writes the pointed-to context and the globals. *)

Inductive Outcome (A : Type) : Type :=
  | Ret (a : A)      (* returned; [true] for the [bool] functions *)
  | Fail             (* [return false] *)
  | OutOfFuel.       (* the model's step budget ran out *)

Arguments Ret {A} a.
Arguments Fail {A}.
Arguments OutOfFuel {A}.

Definition M (A : Type) : Type :=
  ParseContext -> Globals -> Outcome A * ParseContext * Globals.

Definition ret {A : Type} (a : A) : M A := fun c g => (Ret a, c, g).

Definition bind {A B : Type} (m : M A) (k : A -> M B) : M B :=
  fun c g =>
    match m c g with
    | (Ret a, c', g') => k a c' g'
    | (Fail, c', g') => (Fail, c', g')
    | (OutOfFuel, c', g') => (OutOfFuel, c', g')
    end.

#[global] Instance M_ret : MRet M := @ret.
#[global] Instance M_bind : MBind M := fun A B k m => bind m k.

Definition fail {A : Type} : M A := fun c g => (Fail, c, g).
Definition out_of_fuel {A : Type} : M A := fun c g => (OutOfFuel, c, g).
Definition get_ctx : M ParseContext := fun c g => (Ret c, c, g).
Definition get_globals : M Globals := fun c g => (Ret g, c, g).
Definition modify_ctx (f : ParseContext -> ParseContext) : M unit :=
  fun c g => (Ret tt, f c, g).
Definition modify_globals (f : Globals -> Globals) : M unit :=
  fun c g => (Ret tt, c, f g).

(** A reader operation as a decoder step. *)
Definition rd {A : Type} (r : ParseContext -> option A * ParseContext) : M A :=
  fun c g =>
    match r c with
    | (Some a, c') => (Ret a, c', g)
    | (None, c') => (Fail, c', g)
    end.

Definition printf (f : string) (a : list PrintfArg) : M unit :=
  modify_globals (emit (mkPrintf f a)).

(** Run [m] on another context object [sub]; the caller's context is not
    touched, the final [sub] is handed back. *)
Definition on_ctx {A : Type} (sub : ParseContext) (m : M A)
    : M (A * ParseContext) :=
  fun c g =>
    match m sub g with
    | (Ret a, sub', g') => (Ret (a, sub'), c, g')
    | (Fail, _, g') => (Fail, c, g')
    | (OutOfFuel, _, g') => (OutOfFuel, c, g')
    end.

(** As [on_ctx], for a call whose [false] result is ignored. *)
Definition on_ctx_ignoring {A : Type} (sub : ParseContext) (m : M A) : M unit :=
  fun c g =>
    match m sub g with
    | (Ret _, _, g') => (Ret tt, c, g')
    | (Fail, _, g') => (Ret tt, c, g')
    | (OutOfFuel, _, g') => (OutOfFuel, c, g')
    end.

(** The description [ctx->currentTemplatePtr] points to, if any. *)
Definition current_template (c : ParseContext) (g : Globals)
    : option TemplateDescription :=
  match currentTemplatePtr c with
  | Some id => knownIDs g !! id
  | None => None
  end.

(** [ctx->currentTemplatePtr->f(...)] for a mutating member [f]. *)
Definition update_current_template
    (f : TemplateDescription -> TemplateDescription) (c : ParseContext)
    (g : Globals) : Globals :=
  match currentTemplatePtr c with
  | Some id => set_knownIDs (alter f id (knownIDs g)) g
  | None => g
  end.

Definition SetState (newState : XmlParseState) : M unit :=
  fun c g =>
    if XmlParseState_eqb newState (state c) then (Ret tt, c, g)
    else
      let g' :=
        match state c with
        | StateInAttribute => set_nameStack (PopName (nameStack g)) g
        | StateNormal => g
        end in
      (Ret tt, set_state newState c, g').

Definition GetProperKeyName (c : ParseContext) (g : Globals)
    : option (list Z) :=
  let key := GetName (nameStack g) in
  let upperName := GetUpperName (nameStack g) in
  match upperName, key with
  | Some u, Some k =>
      if streq k (lit "Data") && streq u (lit "EventData")
         && negb (streq (cachedValue c) [])
      then Some (cachedValue c)
      else key
  | _, _ => key
  end.

(** Broken-down time, the fields the program prints. *)
Record tm : Type := mkTm {
  tm_year : Z; tm_mon : Z; tm_mday : Z; tm_hour : Z; tm_min : Z; tm_sec : Z
}.

Definition char_array (n : Z) : list Z := repeat 0 (Z.to_nat n).

Section Environment.

(** Library functions the program calls: [strtoul(s, NULL, 10)],
    [UnixTimeFromFileTime] (declared in [tools/wintime.h]) and [gmtime_r]
    ([None] is its [NULL] return). *)
Variable strtoul : list Z -> Z.
Variable UnixTimeFromFileTime : Z -> Z.
Variable gmtime_r : Z -> option tm.

Section Decoder.

Variable buf : list Z.

Definition ParseValueText : M unit :=
  stringType ← rd (ReadOne buf 1);
  valueBuffer ← rd (ReadPrefixedUnicodeString buf (char_array 256) 256 false);
  c ← get_ctx;
  g ← get_globals;
  let key := GetProperKeyName c g in
  let upperName := GetUpperName (nameStack g) in
  match key with
  | Some k =>
      if match upperName with
         | None => true
         | Some u => negb (streq k (lit "Name")) || negb (streq u (lit "Data"))
         end
      then modify_globals
             (update_current_template (RegisterFixedPair k (cstr valueBuffer)) c)
      else ret tt
  | None => ret tt
  end;;
  SetState StateNormal;;
  modify_ctx (set_cachedValue (firstn 255 (cstr valueBuffer))).

Definition ParseAttributes (frames : list ParseContext) : M unit :=
  nameBuffer ← rd (ReadName buf frames (char_array 256) 256);
  modify_globals (fun g => set_nameStack (PushName (cstr nameBuffer) (nameStack g)) g);;
  SetState StateInAttribute.

Definition ParseOpenStartElement (frames : list ParseContext)
    (hasAttributes : bool) : M unit :=
  w ← rd (ReadOne buf 2);
  elementLength ← rd (ReadOne buf 4);
  nameBuffer ← rd (ReadName buf frames (char_array 256) 256);
  attributeListLength ← (if hasAttributes then rd (ReadOne buf 4) else ret 0);
  modify_globals (fun g => set_nameStack (PushName (cstr nameBuffer) (nameStack g)) g).

Definition ParseCloseStartElement : M unit :=
  SetState StateNormal.

Definition ParseCloseElement : M unit :=
  SetState StateNormal;;
  modify_globals (fun g => set_nameStack (PopName (nameStack g)) g).

Definition ParseOptionalSubstitution : M unit :=
  substitutionID ← rd (ReadOne buf 2);
  valueType ← rd (ReadOne buf 1);
  valueType ← (if valueType =? 0x00 then rd (ReadOne buf 1) else ret valueType);
  c ← get_ctx;
  g ← get_globals;
  modify_globals
    (update_current_template
       (RegisterArgPair (GetProperKeyName c g) valueType substitutionID) c);;
  SetState StateNormal.

(** *** The typed argument renderer *)

(** [case 0x01]: the loop over [argLen/2] UTF-16 units. *)
Fixpoint StringLoop (rem : nat) (stringBuffer : list Z)
    (stringNumUsed stringSize : Z) : M (list Z * Z) :=
  match rem with
  | O => ret (stringBuffer, stringNumUsed)
  | S r =>
      v_w ← rd (ReadOne buf 2);
      let '(b, u) := UTF16ToUTF8 v_w stringBuffer stringNumUsed stringSize in
      StringLoop r b u stringSize
  end.

(** [case 0x0E]: one byte read and printed per iteration. *)
Fixpoint BinaryLoop (rem : nat) : M unit :=
  match rem with
  | O => ret tt
  | S r =>
      v_b ← rd (ReadOne buf 1);
      printf "%02X" [PNum v_b];;
      BinaryLoop r
  end.

(** [case 0x13]: [for (idx = sizeof(sid); idx + 4 <= argLen; idx += 4)];
    [rem] bounds the number of iterations. *)
Fixpoint SidLoop (rem : nat) (idx argLen : Z) : M unit :=
  match rem with
  | O => ret tt
  | S r =>
      if idx + 4 <=? argLen then
        v_d ← rd (ReadOne buf 4);
        printf "-%u" [PNum v_d];;
        SidLoop r (idx + 4) argLen
      else ret tt
  end.

(** The fields of the packed 16-byte [EvtxGUID], read as one value. *)
Definition guid_d1 (guid : Z) : Z := Z.land guid 0xFFFFFFFF.
Definition guid_w1 (guid : Z) : Z := Z.land (Z.shiftr guid 32) 0xFFFF.
Definition guid_w2 (guid : Z) : Z := Z.land (Z.shiftr guid 48) 0xFFFF.
Definition guid_b1 (guid : Z) (i : Z) : Z :=
  Z.land (Z.shiftr guid (64 + 8 * i)) 0xFF.

(** The top authority: six bytes, most significant first. *)
Definition sid_authority (sid : list Z) : Z :=
  fold_left (fun v_q b => Z.lor (wrap64 (Z.shiftl v_q 8)) b)
    (firstn 6 (skipn 2 sid)) 0.

(** [case 0x81]: the [while (1)] loop over the copy of the context; it
    leaves through the failing read.  Returns [inString]. *)
Fixpoint StringArrayLoop (fuel : nat) (inString : bool) : M bool :=
  match fuel with
  | O => out_of_fuel
  | S f =>
      fun c g =>
        match ReadOne buf 2 c with
        | (None, c') => (Ret inString, c', g)
        | (Some v_w, c') =>
            let v_w := if (v_w =? 13) || (v_w =? 10) then 32 else v_w in
            if v_w =? 0x0000 then
              if inString
              then (printf "'," [];; StringArrayLoop f false) c' g
              else StringArrayLoop f inString c' g
            else
              let '(utf8Buffer, utf8BufferUsed) :=
                UTF16ToUTF8 v_w (char_array 8) 0 8 in
              let utf8Buffer := store utf8Buffer utf8BufferUsed 0 in
              (printf "%s%s"
                 [PStr (if inString then lit "" else lit "'");
                  PStr (cstr utf8Buffer)];;
               StringArrayLoop f true) c' g
        end
  end.

(** The [switch (argType)] of [ParseTemplateInstance], for a slot whose
    index has an entry [argPair] in the template's [args].  [nested] is the
    recursive [ParseBinXml] call, given the frames of the suspended callers. *)
Definition ParseArgument (fuel : nat)
    (nested : list ParseContext -> Z -> M unit)
    (frames : list ParseContext) (argLen argType : Z)
    (argPair : TemplateArgPair) : M unit :=
  let key := PStr (arg_key argPair) in
  if argType =? 0x01 then
    let stringSize := argLen * 2 + 2 in
    '(stringBuffer, stringNumUsed) ←
      StringLoop (Z.to_nat (argLen / 2)) (char_array stringSize) 0 stringSize;
    let stringNumUsed :=
      if stringNumUsed >=? stringSize then stringSize - 1 else stringNumUsed in
    let stringBuffer := store stringBuffer stringNumUsed 0 in
    printf "'%s':'%s', " [key; PStr (cstr stringBuffer)]
  else if argType =? 0x04 then
    v_b ← rd (ReadOne buf 1);
    printf "'%s':%02u, " [key; PNum v_b]
  else if argType =? 0x06 then
    v_w ← rd (ReadOne buf 2);
    g ← get_globals;
    match eventDescriptionHashTable g !! v_w with
    | Some desc =>
        if streq (arg_key argPair) (lit "EventID")
        then printf "'%s':%04u (%s), " [key; PNum v_w; PStr desc]
        else printf "'%s':%04u, " [key; PNum v_w]
    | None => printf "'%s':%04u, " [key; PNum v_w]
    end
  else if argType =? 0x08 then
    v_d ← rd (ReadOne buf 4);
    match (if streq (arg_key argPair) (lit "LogonType") && (v_d <=? 11)
           then nth (Z.to_nat v_d) logonTypes None else None) with
    | Some name => printf "'%s':%08u (%s), " [key; PNum v_d; PStr name]
    | None =>
        if streq (arg_key argPair) (lit "Address1")
           || streq (arg_key argPair) (lit "Address2")
        then printf "'%s':%08u (%u.%u.%u.%u), "
               [key; PNum v_d; PNum (Z.land v_d 0xFF);
                PNum (Z.land (Z.shiftr v_d 8) 0xFF);
                PNum (Z.land (Z.shiftr v_d 16) 0xFF);
                PNum (Z.land (Z.shiftr v_d 24) 0xFF)]
        else printf "'%s':%08u, " [key; PNum v_d]
    end
  else if argType =? 0x0A then
    v_q ← rd (ReadOne buf 8);
    printf "'%s':%016lu, " [key; PNum v_q]
  else if argType =? 0x0E then
    printf "'%s':" [key];;
    BinaryLoop (Z.to_nat argLen);;
    printf ", " []
  else if argType =? 0x0F then
    guid ← rd (ReadOne buf 16);
    printf "'%s':%08X-%02X-%02X-%02X%02X%02X%02X%02X%02X%02X%02X, "
      (key :: PNum (guid_d1 guid) :: PNum (guid_w1 guid)
           :: PNum (guid_w2 guid)
           :: map (fun i => PNum (guid_b1 guid (Z.of_nat i))) (seq 0 8))
  else if argType =? 0x14 then
    v_d ← rd (ReadOne buf 4);
    printf "'%s':%08X, " [key; PNum v_d]
  else if argType =? 0x15 then
    v_q ← rd (ReadOne buf 8);
    printf "'%s':%016lX, " [key; PNum v_q]
  else if argType =? 0x11 then
    v_q ← rd (ReadOne buf 8);
    let unixTimestamp := UnixTimeFromFileTime v_q in
    match gmtime_r unixTimestamp with
    | None => printf "'%s':%016lX, " [key; PNum v_q]
    | Some t =>
        printf "'%s':%04u.%02u.%02u-%02u:%02u:%02u, "
          [key; PNum (tm_year t + 1900); PNum (tm_mon t + 1); PNum (tm_mday t);
           PNum (tm_hour t); PNum (tm_min t); PNum (tm_sec t)]
    end
  else if argType =? 0x13 then
    if argLen <? 8 then fail
    else
      sid ← rd (ReadData buf 1 8);
      printf "'%s':S-%u-%lu" [key; PNum (nth 0 sid 0); PNum (sid_authority sid)];;
      SidLoop (Z.to_nat argLen) 8 argLen;;
      printf ", " []
  else if argType =? 0x21 then
    ctx ← get_ctx;
    let temporaryCtx := UpdateLen (wrap64 (offset ctx + argLen)) ctx in
    on_ctx_ignoring temporaryCtx (nested (frames ++ [ctx]) 0);;
    modify_ctx (SkipBytes argLen)
  else if argType =? 0x81 then
    ctx ← get_ctx;
    let temporaryCtx := UpdateLen (wrap64 (offset ctx + argLen)) ctx in
    printf "'%s':[" [key];;
    '(inString, _) ← on_ctx temporaryCtx (StringArrayLoop fuel false);
    printf "%s], " [PStr (if inString : bool then lit "'" else lit "")];;
    modify_ctx (SkipBytes argLen)
  else
    (if negb (argType =? 0x00)
     then printf "'%s':'...//%04X[%04X]', "
            [key; PNum (arg_type argPair); PNum argLen]
     else ret tt);;
    modify_ctx (SkipBytes argLen).

(** The body of the loop over the argument slots. *)
Definition ArgumentSlot (fuel : nat)
    (nested : list ParseContext -> Z -> M unit)
    (frames : list ParseContext) (argumentMap : list Z) (argumentIdx : Z)
    : M unit :=
  let argLen := nth (Z.to_nat (argumentIdx * 2)) argumentMap 0 in
  let argType := nth (Z.to_nat (argumentIdx * 2 + 1)) argumentMap 0 in
  c ← get_ctx;
  g ← get_globals;
  (* the map's key type is [uint16_t]: [find] converts the index *)
  match current_template c g ≫= (fun t => args t !! wrap16 argumentIdx) with
  | None => modify_ctx (SkipBytes argLen)
  | Some argPair => ParseArgument fuel nested frames argLen argType argPair
  end.

Fixpoint ArgumentLoop (fuel : nat)
    (nested : list ParseContext -> Z -> M unit)
    (frames : list ParseContext) (argumentMap : list Z)
    (rem : nat) (argumentIdx : Z) : M unit :=
  match rem with
  | O => ret tt
  | S r =>
      ArgumentSlot fuel nested frames argumentMap argumentIdx;;
      ArgumentLoop fuel nested frames argumentMap r (argumentIdx + 1)
  end.

(** The loop printing the template's literal pairs. *)
Definition print_fixed (f : TemplateFixedPair) : M unit :=
  g ← get_globals;
  let eventID := wrap16 (strtoul (fixed_value f)) in
  match (if streq (fixed_key f) (lit "EventID") && negb (eventID =? 0)
         then eventDescriptionHashTable g !! eventID else None) with
  | Some desc =>
      printf "'%s':%u (%s), " [PStr (fixed_key f); PNum eventID; PStr desc]
  | None => printf "'%s':'%s', " [PStr (fixed_key f); PStr (fixed_value f)]
  end.

Fixpoint print_fixed_all (fs : list TemplateFixedPair) : M unit :=
  match fs with
  | [] => ret tt
  | f :: r => print_fixed f;; print_fixed_all r
  end.

(** [ids.IsKnownID(shortID, &ctx->currentTemplatePtr)]. *)
Definition IsKnownID (id : Z) : M bool :=
  fun c g =>
    match knownIDs g !! id with
    | None => (Ret false, c, g)
    | Some _ => (Ret true, set_currentTemplatePtr (Some id) c, g)
    end.

(** [ids.RegisterID(id, &result)]: the entry is (re)set to an empty
    description and its address stored in [result]. *)
Definition RegisterID (id : Z) (g : Globals) : option Z * Globals :=
  let g' := set_knownIDs (<[id := TemplateDescription_new]> (knownIDs g)) g in
  match knownIDs g' !! id with
  | None => (None, g')
  | Some _ => (Some id, g')
  end.

(** Reading the [(length, type)] table; a short read is reported. *)
Definition ReadArgumentMap (argumentMapCount : Z) : M (list Z) :=
  fun c g =>
    match ReadData buf 2 argumentMapCount c with
    | (None, c') =>
        (Fail, c', emit (mkPrintf "Failed to read the arguments\n" []) g)
    | (Some argumentMap, c') => (Ret argumentMap, c', g)
    end.

Definition ParseTemplateInstance (fuel : nat)
    (nested : list ParseContext -> Z -> M unit)
    (frames : list ParseContext) : M unit :=
  b ← rd (ReadOne buf 1);
  if negb (b =? 0x01) then fail
  else
    shortID ← rd (ReadOne buf 4);
    tempResLen ← rd (ReadOne buf 4);
    numArguments ← rd (ReadOne buf 4);
    known ← IsKnownID shortID;
    numArguments ←
      (if known : bool then ret numArguments
       else
         longID ← rd (ReadData buf 1 16);
         templateBodyLen ← rd (ReadOne buf 4);
         ctx ← get_ctx;
         g ← get_globals;
         let templateCtx :=
           InheritWithOffset indeterminate ctx (length frames) templateBodyLen in
         match RegisterID shortID g with
         | (None, g') => modify_globals (fun _ => g');; fail
         | (Some p, g') =>
             modify_globals (fun _ => g');;
             let templateCtx := set_currentTemplatePtr (Some p) templateCtx in
             '(_, templateCtx) ← on_ctx templateCtx (nested (frames ++ [ctx]) 0);
             modify_ctx (SkipBytes templateBodyLen);;
             numArguments ← rd (ReadOne buf 4);
             modify_ctx (set_currentTemplatePtr (currentTemplatePtr templateCtx));;
             ret numArguments
         end);
    ctx ← get_ctx;
    g ← get_globals;
    print_fixed_all
      (match current_template ctx g with Some t => fixed t | None => [] end);;
    (* [numArguments * 2] is computed in 32 bits *)
    let argumentMapCount := wrap32 (numArguments * 2) in
    argumentMap ← ReadArgumentMap argumentMapCount;
    ArgumentLoop fuel nested frames argumentMap (Z.to_nat numArguments) 0.

(** One token: the [switch (tag)] of [ParseBinXml]. *)
Definition ParseToken (fuel : nat)
    (nested : list ParseContext -> Z -> M unit)
    (frames : list ParseContext) (tag : Z) : M unit :=
  if tag =? 0x00 then modify_ctx (fun c => set_offset (dataLen c) c)
  else if tag =? 0x01 then ParseOpenStartElement frames false
  else if tag =? 0x41 then ParseOpenStartElement frames true
  else if tag =? 0x02 then ParseCloseStartElement
  else if (tag =? 0x03) || (tag =? 0x04) then ParseCloseElement
  else if (tag =? 0x05) || (tag =? 0x45) then ParseValueText
  else if (tag =? 0x06) || (tag =? 0x46) then ParseAttributes frames
  else if (tag =? 0x07) || (tag =? 0x47) then ret tt
  else if (tag =? 0x08) || (tag =? 0x48) then ret tt
  else if (tag =? 0x09) || (tag =? 0x49) then ret tt
  else if tag =? 0x0A then ret tt
  else if tag =? 0x0B then ret tt
  else if tag =? 0x0C then ParseTemplateInstance fuel nested frames
  else if (tag =? 0x0D) || (tag =? 0x0E) then ParseOptionalSubstitution
  else if tag =? 0x0F then modify_ctx (SkipBytes 3)
  else fail.

(** The [while (result && ctx->offset < ctx->dataLen)] loop.  Every
    iteration and every nested call takes one unit of [fuel]. *)
Fixpoint ParseBinXml_loop (fuel : nat) (frames : list ParseContext) : M unit :=
  match fuel with
  | O => out_of_fuel
  | S f =>
      ctx ← get_ctx;
      if offset ctx <? dataLen ctx then
        let tag := byte_at buf (data ctx + offset ctx) in
        modify_ctx (set_offset (wrap64 (offset ctx + 1)));;
        ParseToken f
          (fun frames' (_ : Z) =>
             modify_ctx (set_state StateNormal);; ParseBinXml_loop f frames')
          frames tag;;
        ParseBinXml_loop f frames
      else ret tt
  end.

Definition ParseBinXml (fuel : nat) (frames : list ParseContext)
    (chunkOffsetInFile : Z) : M unit :=
  modify_ctx (set_state StateNormal);;
  ParseBinXml_loop fuel frames.

End Decoder.

(** [ParseBinXmlPre]: the record's context is the chunk context itself,
    at the bottom of the stack of contexts. *)
Definition ParseBinXmlPre (fuel : nat) (data : list Z)
    (dataLen chunkOffsetInFile inChunkOffset : Z) (g : Globals)
    : Outcome unit * Globals :=
  let ctx := mkParseContext O 0 dataLen inChunkOffset 0 StateNormal None [] in
  let '(r, _, g') := ParseBinXml data fuel [] chunkOffsetInFile ctx g in
  (r, g').

(** ** The chunk and record walker *)

Definition EVTX_CHUNK_SIZE : Z := 0x10000.

(** [sizeof(EVTX_CHUNK_HEADER_MAGIC)] is 8: the literal and its NUL. *)
Definition EVTX_CHUNK_HEADER_MAGIC : list Z := lit "ElfChnk" ++ [0].

Definition sizeof_EvtxHeader : Z := 0x1000.
Definition sizeof_EvtxChunkHeader : Z := 0x200.
Definition sizeof_EvtxRecordHeader : Z := 24.

(** Fields of the packed headers, by their byte offsets. *)
Definition header_version (header : list Z) : Z := load header 0x24 4.
Definition chunk_firstRecordNumber (chunk : list Z) : Z := load chunk 8 8.
Definition chunk_lastRecordNumber (chunk : list Z) : Z := load chunk 16 8.
Definition record_magic (chunk : list Z) (at_ : Z) : Z := load chunk at_ 4.
Definition record_size (chunk : list Z) (at_ : Z) : Z := load chunk (at_ + 4) 4.
Definition record_number (chunk : list Z) (at_ : Z) : Z := load chunk (at_ + 8) 8.
Definition record_timestamp (chunk : list Z) (at_ : Z) : Z := load chunk (at_ + 16) 8.

(** An open file descriptor: the bytes of the file and whether [lseek]
    works on it. *)
Record File : Type := mkFile {
  contents : list Z;
  seekable : bool
}.

(** [read(f, buffer, n)] at position [pos]: the bytes obtained, fewer than
    [n] at the end of the file. *)
Definition file_read (f : File) (pos n : Z) : list Z :=
  firstn (Z.to_nat n) (skipn (Z.to_nat pos) (contents f)).

(** [lseek(f, off, SEEK_SET)]: the new position, or [-1]. *)
Definition lseek (f : File) (off : Z) : Z :=
  if seekable f && (off <? 2 ^ 63) then off else -1.

(** Which exit the record loop of a chunk took. *)
Inductive RecordExit : Type :=
  | EndOfRecords                    (* no room for another record header *)
  | BadRecordMagic
  | BadTimestamp                    (* [gmtime_r] returned [NULL] *)
  | DecodeFailed (at_ : Z).         (* [ParseBinXmlPre] returned [false] *)

Definition in_chunk_range (chunk : list Z) (number : Z) : bool :=
  (number >=? chunk_firstRecordNumber chunk)
  && (number <=? chunk_lastRecordNumber chunk).

(** The inner [while (result)] loop.  Returns [result], the exit taken,
    the final [inRecordOff] and the globals; [None] when [fuel] runs out. *)
Fixpoint RecordLoop (fuel : nat) (chunk : list Z) (off inRecordOff : Z)
    (g : Globals) : option (bool * RecordExit * Z * Globals) :=
  match fuel with
  | O => None
  | S n =>
      if wrap64 (inRecordOff + sizeof_EvtxRecordHeader) >? EVTX_CHUNK_SIZE
      then Some (true, EndOfRecords, inRecordOff, g)
      else if negb (record_magic chunk inRecordOff =? 0x00002a2a)
      then Some (true, BadRecordMagic, inRecordOff, g)
      else
        let unixTimestamp :=
          UnixTimeFromFileTime (record_timestamp chunk inRecordOff) in
        match gmtime_r unixTimestamp with
        | None => Some (false, BadTimestamp, inRecordOff, g)
        | Some t =>
            let g1 :=
              emit (mkPrintf "Record #%lu %04u-%02u-%02uT%02u:%02u:%02uZ "
                      [PNum (record_number chunk inRecordOff);
                       PNum (tm_year t + 1900); PNum (tm_mon t + 1);
                       PNum (tm_mday t); PNum (tm_hour t); PNum (tm_min t);
                       PNum (tm_sec t)]) g in
            match ParseBinXmlPre n chunk EVTX_CHUNK_SIZE off
                    (wrap64 (inRecordOff + sizeof_EvtxRecordHeader)) g1 with
            | (OutOfFuel, _) => None
            | (Fail, g2) =>
                Some (negb (in_chunk_range chunk (record_number chunk inRecordOff)),
                      DecodeFailed inRecordOff, inRecordOff, g2)
            | (Ret _, g2) =>
                RecordLoop n chunk off
                  (wrap64 (inRecordOff + record_size chunk inRecordOff))
                  (emit (mkPrintf "\n" []) g2)
            end
        end
  end.

(** How one iteration of the outer [while (result)] loop leaves. *)
Inductive ChunkStep : Type :=
  | StopWalk (result : bool)
  | NextChunk (off : Z).

(** The two resets at the top of every iteration. *)
Definition ChunkReset (g : Globals) : Globals :=
  let g := ResetTemplates g in
  set_nameStack (NameStack_Reset (nameStack g)) g.

Definition ChunkIteration (fuel : nat) (f : File) (off : Z) (g : Globals)
    : option (ChunkStep * Globals) :=
  let g := ChunkReset g in
  if negb (wrap64 (lseek f off) =? off) then Some (StopWalk false, g)
  else
    let chunk := file_read f off EVTX_CHUNK_SIZE in
    if negb (Z.of_nat (length chunk) =? EVTX_CHUNK_SIZE)
    then Some (StopWalk true, g)
    else if negb (bool_decide (firstn 8 chunk = EVTX_CHUNK_HEADER_MAGIC))
    then Some (StopWalk true, g)
    else
      match RecordLoop fuel chunk off sizeof_EvtxChunkHeader g with
      | None => None
      | Some (result, _, inRecordOff, g') =>
          let off := wrap64 (off + EVTX_CHUNK_SIZE) in
          if inRecordOff >? off then Some (StopWalk false, g')
          else if result then Some (NextChunk off, g')
          else Some (StopWalk false, g')
      end.

Fixpoint ChunkLoop (fuel : nat) (f : File) (off : Z) (g : Globals)
    : option (bool * Globals) :=
  match fuel with
  | O => None
  | S n =>
      match ChunkIteration n f off g with
      | None => None
      | Some (StopWalk result, g') => Some (result, g')
      | Some (NextChunk off', g') => ChunkLoop n f off' g'
      end
  end.

Definition ParseEVTXInt (fuel : nat) (f : File) (g : Globals)
    : option (bool * Globals) :=
  let header := file_read f 0 sizeof_EvtxHeader in
  if negb (Z.of_nat (length header) =? sizeof_EvtxHeader) then Some (false, g)
  else if negb (header_version header =? 0x00030001) then Some (false, g)
  else ChunkLoop fuel f sizeof_EvtxHeader g.

(** [ParseEVTX]: [file] is [None] when [open] fails. *)
Definition ParseEVTX (fuel : nat) (file : option File) (fileName : list Z)
    (g : Globals) : option (bool * Globals) :=
  match file with
  | None => Some (false, g)
  | Some f =>
      match ParseEVTXInt fuel f g with
      | None => None
      | Some (result, g') =>
          Some (result,
                if result then g'
                else emit (mkPrintf "Failed on %s\n" [PStr fileName]) g')
      end
  end.

End Environment.

(** * Specification vocabulary and sample inputs *)

(** Two contexts that differ at most in their offset. *)
Definition same_window (c c' : ParseContext) : Prop :=
  chunkContext c' = chunkContext c /\ data c' = data c /\
  dataLen c' = dataLen c /\
  offsetFromChunkStart c' = offsetFromChunkStart c /\
  state c' = state c /\ currentTemplatePtr c' = currentTemplatePtr c /\
  cachedValue c' = cachedValue c.

(** The values [ReadData] hands out: the [i]-th is the little-endian
    value of the [sz] bytes at [data + offset + i * sz]. *)
Definition values_at (buf : list Z) (ctx : ParseContext) (sz : Z) (n : nat)
    : list Z :=
  map (fun i => load buf (data ctx + offset ctx + Z.of_nat i * sz) (Z.to_nat sz))
      (seq 0 n).

(** Case analysis on the comparisons of a goal, closing absurd cases. *)
Ltac cmp_cases :=
  repeat match goal with
  | |- context [?a >? ?b] => destruct (Z.gtb_spec a b); try lia
  | |- context [?a >=? ?b] => destruct (Z.geb_spec a b); try lia
  | |- context [?a <=? ?b] => destruct (Z.leb_spec a b); try lia
  | |- context [?a <? ?b] => destruct (Z.ltb_spec a b); try lia
  | |- context [?a =? ?b] => destruct (Z.eqb_spec a b); try lia
  end.

Create HintDb evtx.

(** Sample inputs for the byte reader. *)
Definition sample_bytes : list Z := [0x34; 0x12; 0x78; 0x56; 0xFF].

Definition sample_ctx (len off : Z) : ParseContext :=
  mkParseContext O 0 len off 0 StateNormal None [].

(** A record's context, at address 0: it is its own chunk context. *)
Definition record_ctx : ParseContext :=
  mkParseContext O 0 0x10000 0x300 0 StateNormal None [].

(** A template-body window: a context that lives at address 1 and whose
    chunk context is the record's context at address 0. *)
Definition template_body_ctx : ParseContext :=
  mkParseContext O 0x300 0x40 0x10 0x300 StateNormal (Some 7) [].

(** Number of UTF-8 bytes for a 16-bit unit, as the claim gives it. *)
Definition utf8_length (u : Z) : Z :=
  if u <=? 0x7F then 1 else if u <=? 0x7FF then 2 else 3.

(** A name stack holding twenty names. *)
Definition full_stack : NameStack :=
  run_ops (repeat (OpPushName (lit "Data")) 20) NameStack_new.

(** A length-prefixed string on the wire: three units ["abc"] and a NUL. *)
Definition wire_string : list Z :=
  [3; 0; 0x61; 0; 0x62; 0; 0x63; 0; 0; 0; 0xEE; 0xEE].

(** The key the contextual rewrite rule prescribes, from the top of the
    name stack, the name below it and the cached value. *)
Definition rule_key (top upper : option (list Z)) (cached : list Z)
    : option (list Z) :=
  if bool_decide (top = Some (lit "Data") /\ upper = Some (lit "EventData")
                  /\ cached <> [])
  then Some cached
  else top.

(** Unfolding the decoder monad. *)
Ltac munfold :=
  unfold mbind, M_bind, bind, mret, M_ret, ret, rd, fail, out_of_fuel,
    get_ctx, get_globals, modify_ctx, modify_globals, printf,
    on_ctx, on_ctx_ignoring in *.

(** A stack with [Data] below [EventData]'s child, and a context that has
    cached the [Name] attribute. *)
Definition data_stack : NameStack :=
  run_ops [OpPushName (lit "Event"); OpPushName (lit "EventData");
           OpPushName (lit "Data")] NameStack_new.

Definition data_globals : Globals :=
  mkGlobals data_stack {[ 7 := TemplateDescription_new ]} ∅ [].

Definition data_ctx (len off : Z) : ParseContext :=
  mkParseContext O 0 len off 0 StateNormal (Some 7) (lit "SubjectUserName").

(** A ValueText payload: string type, then the string ["abc"]. *)
Definition value_text_bytes : list Z :=
  [1; 3; 0; 0x61; 0; 0x62; 0; 0x63; 0].

(** A substitution payload: index 5, type 0x08. *)
Definition substitution_bytes : list Z := [5; 0; 8].

(** Bytes of the value blob the renderer consumes for a slot of the given
    type and declared length, when it succeeds. *)
Definition bytes_consumed (argType argLen : Z) : Z :=
  if argType =? 0x01 then 2 * (argLen / 2)
  else if argType =? 0x04 then 1
  else if argType =? 0x06 then 2
  else if argType =? 0x08 then 4
  else if argType =? 0x0A then 8
  else if argType =? 0x0E then argLen
  else if argType =? 0x0F then 16
  else if argType =? 0x14 then 4
  else if argType =? 0x15 then 8
  else if argType =? 0x11 then 8
  else if argType =? 0x13 then 8 + 4 * ((argLen - 8) / 4)
  else argLen.

(** The types whose reader takes its size from the type, not from the
    declared length. *)
Definition fixed_width (argType : Z) : option Z :=
  if argType =? 0x04 then Some 1
  else if argType =? 0x06 then Some 2
  else if argType =? 0x08 then Some 4
  else if argType =? 0x0A then Some 8
  else if argType =? 0x0F then Some 16
  else if argType =? 0x14 then Some 4
  else if argType =? 0x15 then Some 8
  else if argType =? 0x11 then Some 8
  else None.

(** The declared length agrees with what the type's reader consumes. *)
Definition length_fits_type (argType argLen : Z) : Prop :=
  match fixed_width argType with
  | Some w => argLen = w
  | None =>
      if argType =? 0x01 then argLen mod 2 = 0
      else if argType =? 0x13 then 8 <= argLen /\ argLen mod 4 = 0
      else True
  end.

(** [m], when it returns, has moved the offset forward by [k] and touched
    nothing else in the context. *)
Definition advances {A : Type} (m : M A) (k : Z) : Prop :=
  forall c g a c' g',
    0 <= offset c -> offset c + k < 2 ^ 64 ->
    m c g = (Ret a, c', g') ->
    offset c' = offset c + k /\ same_window c c'.

(** Stand-ins for the library functions in the worked examples. *)
Definition sample_strtoul (s : list Z) : Z := 0.
Definition sample_UnixTimeFromFileTime (ft : Z) : Z :=
  ft / 10000000 - 11644473600.
Definition sample_gmtime_r (t : Z) : option tm := Some (mkTm 70 0 1 0 0 0).

(** A template whose substitution 0 is declared as [Flag], type 0x04. *)
Definition flag_template : TemplateDescription :=
  RegisterArgPair (Some (lit "Flag")) 0x04 0 TemplateDescription_new.

Definition flag_globals : Globals :=
  mkGlobals NameStack_new {[ 7 := flag_template ]} ∅ [].

Definition flag_ctx (len : Z) : ParseContext :=
  mkParseContext O 0 len 0 0 StateNormal (Some 7) [].

(** Slot 0 of an instance, as the parser runs it. *)
Definition run_slot (blob argumentMap : list Z) (len : Z)
    : Outcome unit * ParseContext * Globals :=
  ArgumentSlot sample_UnixTimeFromFileTime sample_gmtime_r blob 16
    (ParseBinXml sample_strtoul sample_UnixTimeFromFileTime sample_gmtime_r
       blob 16)
    [] argumentMap 0 (flag_ctx len) flag_globals.

(** *** Sample files *)

Definition zeros (n : Z) : list Z := repeat 0 (Z.to_nat n).

Definition pad_to (n : Z) (l : list Z) : list Z :=
  l ++ zeros (n - Z.of_nat (length l)).

(** [n] bytes of [v], least significant first. *)
Fixpoint le_bytes (n : nat) (v : Z) : list Z :=
  match n with
  | O => []
  | S k => v mod 256 :: le_bytes k (v / 256)
  end.

Definition sample_header : list Z :=
  pad_to 0x1000 (lit "ElfFile" ++ [0] ++ zeros 28 ++ le_bytes 4 0x00030001).

(** A record with the given number and BinXml payload. *)
Definition sample_record (number : Z) (binxml : list Z) : list Z :=
  let size := 24 + Z.of_nat (length binxml) + 4 in
  le_bytes 4 0x00002a2a ++ le_bytes 4 size ++ le_bytes 8 number
    ++ le_bytes 8 0x01D5C03669D98000 ++ binxml ++ le_bytes 4 size.

(** A chunk declaring records [first .. last] and holding [records]. *)
Definition sample_chunk (first last : Z) (records : list Z) : list Z :=
  pad_to 0x10000
    (pad_to 0x200
       (EVTX_CHUNK_HEADER_MAGIC ++ le_bytes 8 first ++ le_bytes 8 last)
     ++ records).

(** BinXml of a record that defines template 0x1234 inline; the template
    body opens the element [Event] (its name stored in place, at chunk
    offset 0x249) and ends; the instance has no arguments. *)
Definition template_binxml : list Z :=
  [0x0F; 0x01; 0x01; 0x00;                      (* fragment header *)
   0x0C; 0x01]                                  (* template instance *)
  ++ le_bytes 4 0x1234 ++ le_bytes 4 0 ++ le_bytes 4 0
  ++ zeros 16 ++ le_bytes 4 32
  ++ ([0x01] ++ le_bytes 2 0xFFFF ++ le_bytes 4 0 ++ le_bytes 4 0x249
      ++ le_bytes 4 0 ++ le_bytes 2 0 ++ le_bytes 2 5
      ++ [0x45; 0; 0x76; 0; 0x65; 0; 0x6E; 0; 0x74; 0] ++ le_bytes 2 0
      ++ [0x02])
  ++ le_bytes 4 0
  ++ [0x00].                                    (* end of fragment *)

(** BinXml that starts with a byte that is no token. *)
Definition bad_binxml : list Z := [0xFF].

Definition file_of (chunks : list Z) : File :=
  mkFile (sample_header ++ chunks) true.

(** One chunk with one well-formed record. *)
Definition template_file : File :=
  file_of (sample_chunk 1 1 (sample_record 1 template_binxml)).

(** One chunk whose only record does not decode; the record's number is
    inside, respectively outside, the range the chunk declares. *)
Definition bad_record_in_range : File :=
  file_of (sample_chunk 1 1 (sample_record 1 bad_binxml)).

Definition bad_record_out_of_range : File :=
  file_of (sample_chunk 1 1 (sample_record 9 bad_binxml)).

Definition fresh_globals : Globals := mkGlobals NameStack_new ∅ ∅ [].

(** One chunk with a well-formed record followed by one that does not
    decode, both numbered inside the declared range. *)
Definition bad_second_record : File :=
  file_of (sample_chunk 1 2 (sample_record 1 template_binxml
                             ++ sample_record 2 bad_binxml)).

Abbreviation sample_RecordLoop fuel f g :=
  (RecordLoop sample_strtoul sample_UnixTimeFromFileTime sample_gmtime_r fuel
     (file_read f sizeof_EvtxHeader EVTX_CHUNK_SIZE) sizeof_EvtxHeader
     sizeof_EvtxChunkHeader (ChunkReset g)).

Abbreviation sample_chunk_of f :=
  (file_read f sizeof_EvtxHeader EVTX_CHUNK_SIZE).

Abbreviation sample_ParseEVTX fuel f g :=
  (ParseEVTX sample_strtoul sample_UnixTimeFromFileTime sample_gmtime_r fuel
     (Some f) (lit "sample.evtx") g).

Abbreviation sample_ParseEVTXInt fuel f g :=
  (ParseEVTXInt sample_strtoul sample_UnixTimeFromFileTime sample_gmtime_r fuel
     f g).

(** What a record walk reports besides the globals. *)
Definition walk_summary (r : option (bool * RecordExit * Z * Globals))
    : option (bool * RecordExit * Z) :=
  match r with
  | Some (result, e, i, _) => Some (result, e, i)
  | None => None
  end.

(** BinXml of a record whose template body (at chunk offset 0x23E) opens
    [Event], name stored in place at 0x249, and then defines a second
    template inline, whose body (at 0x280) opens an element that refers
    back to the name at 0x249. *)
Definition nested_binxml : list Z :=
  [0x0F; 0x01; 0x01; 0x00; 0x0C; 0x01]
  ++ le_bytes 4 0x1234 ++ le_bytes 4 0 ++ le_bytes 4 0
  ++ zeros 16 ++ le_bytes 4 83
  ++ ([0x01] ++ le_bytes 2 0xFFFF ++ le_bytes 4 0 ++ le_bytes 4 0x249
      ++ le_bytes 4 0 ++ le_bytes 2 0 ++ le_bytes 2 5
      ++ [0x45; 0; 0x76; 0; 0x65; 0; 0x6E; 0; 0x74; 0] ++ le_bytes 2 0
      ++ [0x02]
      ++ [0x0C; 0x01] ++ le_bytes 4 0x5678 ++ le_bytes 4 0 ++ le_bytes 4 0
      ++ zeros 16 ++ le_bytes 4 13
      ++ ([0x01] ++ le_bytes 2 0xFFFF ++ le_bytes 4 0 ++ le_bytes 4 0x249
          ++ [0x02; 0x04])
      ++ le_bytes 4 0)
  ++ le_bytes 4 0
  ++ [0x00].

Definition nested_chunk : list Z :=
  sample_chunk 1 1 (sample_record 1 nested_binxml).

Definition nested_file : File := file_of nested_chunk.

(** The contexts alive when the inner body reads its element name: the
    record's context (address 0), the outer body's window (address 1) and
    the inner body's window (address 2), the latter with [chunkContext] as
    given. *)
Definition outer_window : ParseContext :=
  mkParseContext O 0x23E 83 0x42 0x23E StateNormal (Some 0x1234) [].

Definition inner_window (chunkCtx : ctx_ptr) : ParseContext :=
  mkParseContext chunkCtx 0x280 13 7 0x280 StateNormal (Some 0x5678) [].

Definition name_through (chunkCtx : ctx_ptr) : option (list Z) :=
  cstr <$> fst (ReadName nested_chunk
                  [mkParseContext O 0 0x10000 0x25E 0 StateNormal None [];
                   outer_window]
                  (char_array 256) 256 (inner_window chunkCtx)).




(** The name stack as its constructor and operations leave it: twenty
    slots and a top index from -1 to 19. *)
Definition NameStack_ok (s : NameStack) : Prop :=
  length (names s) = maxNameStackDepth /\ -1 <= nameStackPtr s <= 19.

(** Standard UTF-8 decoding of a sequence of one, two or three bytes. *)
Definition utf8_decode (bs : list Z) : option Z :=
  match bs with
  | [b0] => if b0 <? 0x80 then Some b0 else None
  | [b0; b1] =>
      if (Z.land b0 0xE0 =? 0xC0) && (Z.land b1 0xC0 =? 0x80)
      then Some (Z.lor (Z.shiftl (Z.land b0 0x1F) 6) (Z.land b1 0x3F))
      else None
  | [b0; b1; b2] =>
      if (Z.land b0 0xF0 =? 0xE0) && (Z.land b1 0xC0 =? 0x80)
         && (Z.land b2 0xC0 =? 0x80)
      then Some (Z.lor (Z.shiftl (Z.land b0 0x0F) 12)
                   (Z.lor (Z.shiftl (Z.land b1 0x3F) 6) (Z.land b2 0x3F)))
      else None
  | _ => None
  end.

(** The bytes the transcoder leaves in the array for a unit, first byte
    first (read off its stores in [UTF16ToUTF8_stored]). *)
Definition utf8_bytes (w : Z) : list Z :=
  if w <=? 0x7F then [wrap8 w]
  else if w <=? 0x7FF then
    [wrap8 (Z.lor 192 (Z.land (Z.shiftr w 6) 0xFF));
     wrap8 (Z.lor 0x80 (Z.land w 0x3F))]
  else
    [wrap8 (Z.lor 224 (Z.land (Z.shiftr (Z.shiftr w 6) 6) 0x1F));
     wrap8 (Z.lor 0x80 (Z.land (Z.shiftr w 6) 0x3F));
     wrap8 (Z.lor 0x80 (Z.land w 0x3F))].

Fixpoint units_from (n : nat) (from : Z) : list Z :=
  match n with
  | O => []
  | S k => from :: units_from k (from + 1)
  end.

Definition all_units : list Z := units_from (Z.to_nat 65536) 0.

Definition decodes_back (w : Z) : bool :=
  match utf8_decode (utf8_bytes w) with
  | Some v => v =? w
  | None => false
  end.

(** A record that declares a size of zero; its payload is the end-of-stream
    token. *)
Definition zero_size_record : list Z :=
  le_bytes 4 0x00002a2a ++ le_bytes 4 0 ++ le_bytes 8 1
    ++ le_bytes 8 0x01D5C03669D98000 ++ [0x00].

Definition zero_size_chunk : list Z := sample_chunk 1 1 zero_size_record.

(** [m] keeps the property [I] of the globals, from every context and
    whatever its outcome is. *)
Definition keeps {A : Type} (I : Globals -> Prop) (m : M A) : Prop :=
  forall c g, I g -> I (snd (m c g)).

(** The line the walker prints for a record before decoding it. *)
Definition record_line (chunk : list Z) (at_ : Z) (t : tm) : Printf :=
  mkPrintf "Record #%lu %04u-%02u-%02uT%02u:%02u:%02uZ "
    [PNum (record_number chunk at_);
     PNum (tm_year t + 1900); PNum (tm_mon t + 1);
     PNum (tm_mday t); PNum (tm_hour t); PNum (tm_min t);
     PNum (tm_sec t)].

(** The globals with which the walk of [bad_second_record] arrives at its
    second record: what decoding the first record left, and the end of its
    output line. *)
Definition after_first_record : Globals :=
  emit (mkPrintf "\n" [])
    (snd (ParseBinXmlPre sample_strtoul sample_UnixTimeFromFileTime
            sample_gmtime_r 39
            (file_read bad_second_record sizeof_EvtxHeader EVTX_CHUNK_SIZE)
            EVTX_CHUNK_SIZE sizeof_EvtxHeader 536
            (emit (record_line
                     (file_read bad_second_record sizeof_EvtxHeader
                        EVTX_CHUNK_SIZE) 512 (mkTm 70 0 1 0 0 0))
               (ChunkReset fresh_globals)))).

(** An attribute [a] (its name stored in place) followed by the value text
    ["b"]. *)
Definition attribute_bytes : list Z :=
  le_bytes 4 4 ++ le_bytes 4 0 ++ le_bytes 2 0 ++ le_bytes 2 1
    ++ [0x61; 0] ++ le_bytes 2 0
    ++ [1] ++ le_bytes 2 1 ++ [0x62; 0].

Definition attribute_ctx : ParseContext :=
  mkParseContext O 0 21 0 0 StateNormal None [].

Definition full_globals : Globals := mkGlobals full_stack ∅ ∅ [].

(** * Properties *)

(** ** Arithmetic helpers *)

Lemma wrap64_small (x : Z) : 0 <= x < 2 ^ 64 -> wrap64 x = x.
Proof. intros H. unfold wrap64, wrap. now apply Z.mod_small. Qed.

Lemma wrap64_range (x : Z) : 0 <= wrap64 x < 2 ^ 64.
Proof. unfold wrap64, wrap. apply Z.mod_pos_bound. lia. Qed.

Lemma byte_at_range (buf : list Z) (a : Z) : 0 <= byte_at buf a < 256.
Proof. unfold byte_at, wrap8, wrap. apply Z.mod_pos_bound. lia. Qed.

Lemma load_range (buf : list Z) (sz : nat) (a : Z) :
  0 <= load buf a sz < 256 ^ Z.of_nat sz.
Proof.
  revert a. induction sz as [|k IH]; intros a.
  - simpl. lia.
  - change (load buf a (S k)) with (byte_at buf a + 256 * load buf (a + 1) k).
    rewrite Nat2Z.inj_succ, Z.pow_succ_r by lia.
    pose proof (byte_at_range buf a). specialize (IH (a + 1)). nia.
Qed.

(** ** The byte reader *)

Lemma same_window_refl (c : ParseContext) : same_window c c.
Proof. repeat split. Qed.

Lemma same_window_trans (a b c : ParseContext) :
  same_window a b -> same_window b c -> same_window a c.
Proof. unfold same_window. intuition congruence. Qed.

Lemma same_window_set_offset (o : Z) (c : ParseContext) :
  same_window c (set_offset o c).
Proof. repeat split. Qed.

#[local] Hint Resolve same_window_refl same_window_set_offset : evtx.

Section ReaderFacts.

Variable buf : list Z.

Lemma ReadData_loop_spec (sz : Z) (count : nat) :
  forall (first : nat) (ctx c0 : ParseContext),
    0 <= sz -> 0 <= offset c0 ->
    offset c0 + sz * Z.of_nat (first + count) < 2 ^ 64 ->
    same_window c0 ctx -> offset ctx = offset c0 + sz * Z.of_nat first ->
    let '(vs, ctx') := ReadData_loop buf sz count ctx in
    vs = map (fun i => load buf (data c0 + offset c0 + Z.of_nat i * sz) (Z.to_nat sz))
             (seq first count)
    /\ offset ctx' = offset c0 + sz * Z.of_nat (first + count)
    /\ same_window c0 ctx'.
Proof.
  induction count as [|k IH]; intros first ctx c0 Hsz Ho Hb Hw Hoff.
  - simpl. rewrite Nat.add_0_r. auto.
  - simpl.
    specialize (IH (S first) (set_offset (wrap64 (offset ctx + sz)) ctx) c0 Hsz Ho).
    destruct (ReadData_loop buf sz k _) as [vs ctx'] eqn:E.
    assert (Hw' : wrap64 (offset ctx + sz) = offset c0 + sz * Z.of_nat (S first)).
    { rewrite wrap64_small; [lia|]. nia. }
    destruct IH as (Hv & Ho' & Hs).
    + replace (S first + k)%nat with (first + S k)%nat by lia. exact Hb.
    + eapply same_window_trans; [exact Hw|]. apply same_window_set_offset.
    + simpl. exact Hw'.
    + split; [|split].
      * f_equal; [|exact Hv].
        destruct Hw as (_ & Hd & _). rewrite Hd, Hoff. f_equal. lia.
      * rewrite Ho'. f_equal. f_equal. lia.
      * exact Hs.
Qed.

Lemma ReadData_success (sz n : Z) (ctx : ParseContext) (vs : list Z)
    (ctx' : ParseContext) :
  0 <= sz -> 0 <= n -> 0 <= offset ctx -> offset ctx + sz * n < 2 ^ 64 ->
  ReadData buf sz n ctx = (Some vs, ctx') ->
  vs = values_at buf ctx sz (Z.to_nat n)
  /\ offset ctx' = offset ctx + n * sz
  /\ same_window ctx ctx'.
Proof.
  intros Hsz Hn Ho Hb. unfold ReadData.
  destruct (negb (HaveEnoughData ctx (wrap64 (sz * n)))); [discriminate|].
  pose proof (ReadData_loop_spec sz (Z.to_nat n) 0 ctx ctx Hsz Ho) as H.
  destruct (ReadData_loop buf sz (Z.to_nat n) ctx) as [vs0 c0].
  intros [= <- <-].
  destruct H as (Hv & Ho' & Hs).
  - simpl. rewrite Z2Nat.id by lia. exact Hb.
  - apply same_window_refl.
  - simpl. lia.
  - simpl in Ho'. rewrite Z2Nat.id in Ho' by lia.
    unfold values_at. repeat split; try apply Hs; [exact Hv | lia].
Qed.

End ReaderFacts.

(** The bounds check of [ReadData], in terms of the bytes that remain. *)
Lemma ReadData_short_iff (buf : list Z) (ctx : ParseContext) (sz n : Z) :
  0 < sz -> 0 <= n -> 0 <= offset ctx -> offset ctx + n * sz < 2 ^ 64 ->
  fst (ReadData buf sz n ctx) = None <-> dataLen ctx - offset ctx < n * sz.
Proof.
  intros Hsz Hn Ho Hb. unfold ReadData, HaveEnoughData.
  rewrite (wrap64_small (sz * n)) by nia.
  rewrite (wrap64_small (offset ctx + sz * n)) by nia.
  destruct (Z.leb_spec (offset ctx + sz * n) (dataLen ctx)) as [H|H]; simpl.
  - destruct (ReadData_loop buf sz (Z.to_nat n) ctx). simpl.
    split; [discriminate | lia].
  - split; [lia | reflexivity].
Qed.

(** C5: a read of [n] values of a [sz]-byte type fails exactly when fewer
    than [n * sz] bytes remain between the offset and the window length;
    when it succeeds it returns the [n] little-endian values found at the
    offset and advances the offset by exactly [n * sz], leaving the rest of
    the context alone.  (The offset is a [size_t] that has not wrapped.) *)
Theorem ReadData_fails_iff_short (buf : list Z) (ctx : ParseContext) (sz n : Z) :
  0 < sz -> 0 <= n -> 0 <= offset ctx -> offset ctx + n * sz < 2 ^ 64 ->
  (fst (ReadData buf sz n ctx) = None <-> dataLen ctx - offset ctx < n * sz)
  /\ (forall vs ctx',
        ReadData buf sz n ctx = (Some vs, ctx') ->
        vs = values_at buf ctx sz (Z.to_nat n)
        /\ offset ctx' = offset ctx + n * sz
        /\ same_window ctx ctx').
Proof.
  intros Hsz Hn Ho Hb. split.
  - now apply ReadData_short_iff.
  - intros vs ctx' H.
    apply (ReadData_success buf sz n ctx vs ctx'); try lia. exact H.
Qed.

Lemma ReadData_fails_iff_short_witness :
  (fst (ReadData sample_bytes 2 2 (sample_ctx 5 0)) = None
     <-> dataLen (sample_ctx 5 0) - offset (sample_ctx 5 0) < 2 * 2)
  /\ (forall vs ctx',
        ReadData sample_bytes 2 2 (sample_ctx 5 0) = (Some vs, ctx') ->
        vs = values_at sample_bytes (sample_ctx 5 0) 2 (Z.to_nat 2)
        /\ offset ctx' = offset (sample_ctx 5 0) + 2 * 2
        /\ same_window (sample_ctx 5 0) ctx').
Proof.
  apply (ReadData_fails_iff_short sample_bytes (sample_ctx 5 0) 2 2);
    simpl; lia.
Defined.

Lemma ReadData_None_inv (buf : list Z) (ctx ctx' : ParseContext) (sz n : Z) :
  ReadData buf sz n ctx = (None, ctx') -> ctx' = ctx.
Proof.
  unfold ReadData.
  destruct (negb (HaveEnoughData ctx (wrap64 (sz * n)))).
  - now intros [= <-].
  - destruct (ReadData_loop buf sz (Z.to_nat n) ctx). discriminate.
Qed.

(** C9: a read that fails hands the context back exactly as it received
    it: no field, the offset included, has changed (the buffer is read-only
    throughout). *)
Theorem ReadData_failure_leaves_context (buf : list Z) (ctx ctx' : ParseContext)
    (sz n : Z) :
  ReadData buf sz n ctx = (None, ctx') -> ctx' = ctx.
Proof. apply ReadData_None_inv. Qed.

Lemma ReadData_failure_leaves_context_witness :
  ReadData sample_bytes 4 2 (sample_ctx 5 0) = (None, sample_ctx 5 0)
  /\ sample_ctx 5 0 = sample_ctx 5 0.
Proof.
  split; [reflexivity|].
  apply (ReadData_failure_leaves_context sample_bytes
           (sample_ctx 5 0) (sample_ctx 5 0) 4 2).
  reflexivity.
Defined.


(** A successful single read advances by the size of the type. *)
Lemma ReadOne_success (buf : list Z) (ctx ctx' : ParseContext) (sz v : Z) :
  0 < sz -> 0 <= offset ctx -> offset ctx + sz < 2 ^ 64 ->
  ReadOne buf sz ctx = (Some v, ctx') ->
  v = load buf (data ctx + offset ctx) (Z.to_nat sz)
  /\ offset ctx' = offset ctx + sz
  /\ offset ctx + sz <= dataLen ctx
  /\ same_window ctx ctx'.
Proof.
  intros Hsz Ho Hb. unfold ReadOne.
  destruct (ReadData buf sz 1 ctx) as [[vs|] c] eqn:E; [|discriminate].
  intros [= <- <-].
  pose proof (ReadData_short_iff buf ctx sz 1) as Hf.
  destruct (ReadData_success buf sz 1 ctx vs c) as (Hv & Hoff & Hw);
    try lia; [exact E|].
  rewrite Hv. simpl. rewrite Z.add_0_r.
  repeat split; try apply Hw; try lia.
  destruct (Z.le_gt_cases (offset ctx + sz) (dataLen ctx)) as [|Hgt]; [lia|].
  assert (H : fst (ReadData buf sz 1 ctx) = None) by (apply Hf; lia).
  rewrite E in H. discriminate.
Qed.

(** ** Child windows *)

(** The parts of the window a child inherits. *)
Lemma InheritWithOffset_window (this other : ParseContext) (a : ctx_ptr)
    (len : Z) :
  0 <= offset other -> 0 <= len -> offset other + len < 2 ^ 64 ->
  0 <= offsetFromChunkStart other ->
  offset other + offsetFromChunkStart other < 2 ^ 64 ->
  dataLen other < 2 ^ 64 ->
  let child := InheritWithOffset this other a len in
  data child = data other + offset other
  /\ dataLen child = Z.min len (Z.max 0 (dataLen other - offset other))
  /\ offset child = 0
  /\ offsetFromChunkStart child = offset other + offsetFromChunkStart other
  /\ chunkContext child = a.
Proof.
  intros Ho Hl Hb Hc Hcb Hd. unfold InheritWithOffset. simpl.
  rewrite (wrap64_small (offset other + len)) by lia.
  rewrite (wrap64_small (offset other + offsetFromChunkStart other)) by lia.
  repeat split.
  destruct (Z.gtb_spec (offset other + len) (dataLen other));
    destruct (Z.geb_spec (offset other) (dataLen other));
    try rewrite wrap64_small; lia.
Qed.

(** C8: the child of a context that is not its own chunk context (here a
    template-body window at address 1 whose chunk context, the record's
    context, is at address 0) gets [chunkContext] pointing at that parent,
    not at the parent's chunk context, so that what [ReadName] reaches
    through it is the window, whose [data] is not the start of the chunk;
    the other fields are as the claim has them. *)
Theorem InheritWithOffset_of_nested_parent :
  let child := InheritWithOffset indeterminate template_body_ctx 1%nat 0x20 in
  let frames := [record_ctx; template_body_ctx] in
  chunkContext child = 1%nat
  /\ chunkContext template_body_ctx = 0%nat
  /\ chunkContext child <> chunkContext template_body_ctx
  /\ deref frames child (chunkContext child) = template_body_ctx
  /\ deref frames child (chunkContext template_body_ctx) = record_ctx
  /\ data template_body_ctx <> data record_ctx
  /\ data child = 0x310 /\ dataLen child = 0x20
  /\ offsetFromChunkStart child = 0x310.
Proof. cbv. repeat split; congruence. Qed.

(** ** The transcoder *)

Lemma UTF16ToUTF8_tail_one (w used : Z) :
  UTF16ToUTF8_tail 1 w used
  = ([(used + 1, Z.lor 0x80 (Z.land w 0x3F))], Z.shiftr w 6).
Proof. reflexivity. Qed.

Lemma UTF16ToUTF8_tail_two (w used : Z) :
  UTF16ToUTF8_tail 2 w used
  = ([(used + 2, Z.lor 0x80 (Z.land w 0x3F));
      (used + 1, Z.lor 0x80 (Z.land (Z.shiftr w 6) 0x3F))],
     Z.shiftr (Z.shiftr w 6) 6).
Proof. reflexivity. Qed.

(** C7 (as amended): for a 16-bit unit [w] the transcoder stores 1, 2 or
    3 bytes according to the range of [w] when more than that many bytes
    are free (one byte is always kept for the terminator), stores nothing
    otherwise, and every store it performs is at an index from [bufferUsed]
    up to, and excluding, [bufferSize]. *)
Theorem UTF16ToUTF8_writes_in_bounds (w used size : Z) :
  0 <= w <= 0xFFFF -> 0 <= used < 2 ^ 63 ->
  let '(ws, used') := UTF16ToUTF8_writes w used size in
  (forall i v, In (i, v) ws -> used <= i < size)
  /\ (used + utf8_length w < size ->
      Z.of_nat (length ws) = utf8_length w
      /\ used' = used + utf8_length w
      /\ forall k, 0 <= k < utf8_length w -> In (used + k) (map fst ws))
  /\ (size <= used + utf8_length w -> ws = [] /\ used' = used).
Proof.
  intros Hw Hu. unfold UTF16ToUTF8_writes, utf8_length.
  destruct (Z.gtb_spec w 0x7F) as [H1|H1];
    destruct (Z.gtb_spec w 0x7FF) as [H2|H2];
    destruct (Z.gtb_spec w 0xFFFF) as [H3|H3]; try lia;
    destruct (Z.leb_spec w 0x7F); try lia;
    destruct (Z.leb_spec w 0x7FF); try lia;
    rewrite !wrap64_small by lia.
  - (* three bytes *)
    destruct (Z.geb_spec (used + (1 + 1 + 1)) size) as [Hs|Hs].
    + split; [intros i v [] | split; [lia | auto]].
    + change (Z.to_nat (1 + 1 + 1 - 1)) with 2%nat.
      rewrite UTF16ToUTF8_tail_two. simpl.
      split; [|split].
      * intros i v [E|[E|[E|[]]]]; inversion E; lia.
      * intros _. repeat split; lia.
      * lia.
  - (* two bytes *)
    destruct (Z.geb_spec (used + (1 + 1)) size) as [Hs|Hs].
    + split; [intros i v [] | split; [lia | auto]].
    + change (Z.to_nat (1 + 1 - 1)) with 1%nat.
      rewrite UTF16ToUTF8_tail_one. simpl.
      split; [|split].
      * intros i v [E|[E|[]]]; inversion E; lia.
      * intros _. repeat split; lia.
      * lia.
  - (* one byte *)
    destruct (Z.geb_spec (used + 1) size) as [Hs|Hs].
    + split; [intros i v [] | split; [lia | auto]].
    + simpl. split; [|split].
      * intros i v [E|[]]; inversion E; lia.
      * intros _. repeat split; lia.
      * lia.
Qed.

Lemma UTF16ToUTF8_writes_in_bounds_witness :
  (UTF16ToUTF8_writes 0x41 0 8 = ([(0, 0x41)], 1)
   /\ UTF16ToUTF8_writes 0xE9 1 8 = ([(2, 0xA9); (1, 0xC3)], 3)
   /\ UTF16ToUTF8_writes 0x20AC 4 8 = ([(6, 0xAC); (5, 0x82); (4, 0xE2)], 7)
   /\ UTF16ToUTF8 0x20AC (char_array 8) 4 8
      = ([0; 0; 0; 0; 0xE2; 0x82; 0xAC; 0], 7))
  /\ (let '(ws, used') := UTF16ToUTF8_writes 0x20AC 4 8 in
      (forall i v, In (i, v) ws -> 4 <= i < 8)
      /\ Z.of_nat (length ws) = 3
      /\ used' = 4 + 3
      /\ forall k, 0 <= k < 3 -> In (4 + k) (map fst ws)).
Proof.
  split; [repeat split; reflexivity|].
  pose proof (UTF16ToUTF8_writes_in_bounds 0x20AC 4 8 ltac:(lia) ltac:(lia))
    as H.
  change (utf8_length 0x20AC) with 3 in H.
  destruct (UTF16ToUTF8_writes 0x20AC 4 8) as [ws used'].
  destruct H as (Hb & Hfit & _).
  destruct Hfit as (Hl & Hu & Hk); [lia|].
  split; [exact Hb|]. split; [exact Hl|]. split; [exact Hu | exact Hk].
Defined.

(** C7 as stated fails at an exact fit: with exactly as many bytes left in
    the buffer as the unit needs (1, 2 or 3), the transcoder stores nothing
    and leaves [bufferUsed] as it was. *)
Lemma UTF16ToUTF8_exact_fit_stores_nothing :
  (utf8_length 0x41 = 1 /\ 8 - 7 = 1
   /\ UTF16ToUTF8_writes 0x41 7 8 = ([], 7)
   /\ UTF16ToUTF8 0x41 (char_array 8) 7 8 = (char_array 8, 7))
  /\ (utf8_length 0xE9 = 2 /\ 8 - 6 = 2
      /\ UTF16ToUTF8_writes 0xE9 6 8 = ([], 6)
      /\ UTF16ToUTF8 0xE9 (char_array 8) 6 8 = (char_array 8, 6))
  /\ (utf8_length 0x20AC = 3 /\ 8 - 5 = 3
      /\ UTF16ToUTF8_writes 0x20AC 5 8 = ([], 5)
      /\ UTF16ToUTF8 0x20AC (char_array 8) 5 8 = (char_array 8, 5)).
Proof. repeat split; reflexivity. Qed.

(** The transcoder leaves the length of the array alone. *)
Lemma store_all_length (ws : list (Z * Z)) (b : list Z) :
  length (store_all b ws) = length b.
Proof.
  revert b. induction ws as [|[i v] ws IH]; intros b; simpl; [reflexivity|].
  unfold store_all in *. simpl. rewrite IH. unfold store.
  apply length_insert.
Qed.

(** ** Length-prefixed strings *)

Section StringFacts.

Variable buf : list Z.

Lemma ReadUnits_offset (size : Z) (rem : nat) :
  forall (idx : Z) (nb : list Z) (used : Z) (ctx : ParseContext)
         (b : list Z) (u idx' : Z) (ctx' : ParseContext),
    0 <= offset ctx -> offset ctx + 2 * Z.of_nat rem < 2 ^ 64 ->
    ReadUnits buf rem idx nb used size ctx = (Some (b, u, idx'), ctx') ->
    offset ctx' = offset ctx + 2 * (idx' - idx)
    /\ idx <= idx' <= idx + Z.of_nat rem
    /\ same_window ctx ctx'.
Proof.
  induction rem as [|r IH]; intros idx nb used ctx b u idx' ctx' Ho Hb.
  - simpl. intros [= <- <- <- <-]. repeat split; lia.
  - simpl. destruct (idx * 2 <? wrap64 (size - 1)).
    + destruct (ReadOne buf 2 ctx) as [[w|] c1] eqn:E; [|discriminate].
      destruct (ReadOne_success buf ctx c1 2 w) as (_ & Ho1 & _ & Hw1);
        try lia; [exact E|].
      destruct (UTF16ToUTF8 w nb used size) as [b1 u1].
      intros H. apply IH in H; try lia.
      destruct H as (Ho2 & Hi & Hw2).
      split; [lia|]. split; [lia|].
      eapply same_window_trans; eauto.
    + intros [= <- <- <- <-]. repeat split; lia.
Qed.

(** C10: a successful read of a length-prefixed string whose wire-declared
    count is [c] leaves the offset exactly [2 + 2 * c] bytes further (and 2
    more when a terminating unit is expected), whatever the destination
    buffer and its size are. *)
Theorem ReadPrefixedUnicodeString_advance (nameBuffer : list Z)
    (nameBufferSize : Z) (isNullTerminated : bool) (ctx ctx' : ParseContext)
    (b : list Z) :
  0 <= offset ctx < 2 ^ 63 ->
  ReadPrefixedUnicodeString buf nameBuffer nameBufferSize isNullTerminated ctx
    = (Some b, ctx') ->
  let c := load buf (data ctx + offset ctx) 2 in
  offset ctx' = offset ctx + 2 + 2 * c + (if isNullTerminated then 2 else 0)
  /\ same_window ctx ctx'.
Proof.
  intros Ho. unfold ReadPrefixedUnicodeString.
  destruct (ReadOne buf 2 ctx) as [[cnt|] c1] eqn:E; [|discriminate].
  destruct (ReadOne_success buf ctx c1 2 cnt) as (Hc & Ho1 & _ & Hw1);
    try lia; [exact E|].
  change (Z.to_nat 2) with 2%nat in Hc.
  pose proof (load_range buf 2 (data ctx + offset ctx)) as Hr.
  change (256 ^ Z.of_nat 2) with 65536 in Hr. rewrite <- Hc in Hr.
  destruct (ReadUnits buf (Z.to_nat cnt) 0 nameBuffer 0 nameBufferSize c1)
    as [[[[b1 u1] idx]|] c2] eqn:E2; [|discriminate].
  apply ReadUnits_offset in E2; try lia.
  destruct E2 as (Ho2 & Hi & Hw2).
  intros [= <- <-]. cbv zeta. rewrite <- Hc.
  split.
  - unfold SkipBytes. simpl. rewrite wrap64_small; destruct isNullTerminated; lia.
  - eapply same_window_trans; [exact Hw1|].
    eapply same_window_trans; [exact Hw2|].
    apply same_window_set_offset.
Qed.

End StringFacts.

Lemma ReadPrefixedUnicodeString_advance_witness :
  let ctx := sample_ctx 12 0 in
  let r := ReadPrefixedUnicodeString wire_string (char_array 3) 3 true ctx in
  fst r = Some [0x61; 0; 0]
  /\ offset (snd r) = 0 + 2 + 2 * 3 + 2
  /\ same_window ctx (snd r).
Proof.
  split; [reflexivity|].
  apply (ReadPrefixedUnicodeString_advance wire_string (char_array 3) 3 true
           (sample_ctx 12 0) _ [0x61; 0; 0]).
  - simpl. lia.
  - reflexivity.
Defined.

(** ** The name stack *)

Lemma run_op_depth (op : NameStackOp) (s : NameStack) :
  0 <= depth s <= 20 -> 0 <= depth (run_op op s) <= 20.
Proof.
  unfold depth. intros H.
  destruct op; simpl; unfold NameStack_Reset, PushName, PopName,
    MAX_NAME_STACK_DEPTH, INVALID_STACK_DEPTH; simpl; try lia.
  - destruct (Z.geb_spec (nameStackPtr s + 1) 20); simpl; lia.
  - destruct (Z.gtb_spec (nameStackPtr s) (-1)); simpl; lia.
Qed.

Lemma run_ops_depth (ops : list NameStackOp) :
  forall s, 0 <= depth s <= 20 -> 0 <= depth (run_ops ops s) <= 20.
Proof.
  induction ops as [|op ops IH]; intros s H; [exact H|].
  apply IH. now apply run_op_depth.
Qed.

(** C6: whatever sequence of operations is run on a fresh name stack, its
    depth stays between 0 and 20; a push on a full stack returns the stack
    unchanged; and each single operation keeps a depth in [0, 20] there. *)
Theorem NameStack_depth_bounded :
  (forall ops, 0 <= depth (run_ops ops NameStack_new) <= 20)
  /\ (forall name s, 20 <= depth s -> PushName name s = s)
  /\ (forall op s, 0 <= depth s <= 20 -> 0 <= depth (run_op op s) <= 20).
Proof.
  split; [|split].
  - intros ops. apply run_ops_depth. cbv. split; discriminate.
  - intros name s H. unfold PushName, depth, MAX_NAME_STACK_DEPTH in *.
    destruct (Z.geb_spec (nameStackPtr s + 1) 20); [reflexivity | lia].
  - apply run_op_depth.
Qed.

Lemma NameStack_depth_bounded_witness :
  depth full_stack = 20
  /\ PushName (lit "EventData") full_stack = full_stack
  /\ 0 <= depth (run_op OpPopName full_stack) <= 20.
Proof.
  destruct NameStack_depth_bounded as (_ & Hpush & Hop).
  split; [reflexivity|]. split.
  - apply Hpush. vm_compute. discriminate.
  - apply Hop. vm_compute. split; discriminate.
Defined.

(** ** Reads never touch anything but the offset *)

Lemma ReadData_loop_same_window (buf : list Z) (sz : Z) (count : nat) :
  forall ctx, same_window ctx (snd (ReadData_loop buf sz count ctx)).
Proof.
  induction count as [|k IH]; intros ctx; simpl; [apply same_window_refl|].
  specialize (IH (set_offset (wrap64 (offset ctx + sz)) ctx)).
  destruct (ReadData_loop buf sz k _) as [vs c']. simpl in *.
  eapply same_window_trans; [apply same_window_set_offset | exact IH].
Qed.

Lemma ReadData_same_window (buf : list Z) (sz n : Z) (ctx : ParseContext) :
  same_window ctx (snd (ReadData buf sz n ctx)).
Proof.
  unfold ReadData. destruct (negb _); [apply same_window_refl|].
  pose proof (ReadData_loop_same_window buf sz (Z.to_nat n) ctx) as H.
  destruct (ReadData_loop buf sz (Z.to_nat n) ctx). exact H.
Qed.

Lemma ReadOne_same_window (buf : list Z) (sz : Z) (ctx : ParseContext) :
  same_window ctx (snd (ReadOne buf sz ctx)).
Proof.
  unfold ReadOne. pose proof (ReadData_same_window buf sz 1 ctx) as H.
  destruct (ReadData buf sz 1 ctx) as [[vs|] c]; exact H.
Qed.

Lemma ReadUnits_same_window (buf : list Z) (size : Z) (rem : nat) :
  forall idx nb used ctx,
    same_window ctx (snd (ReadUnits buf rem idx nb used size ctx)).
Proof.
  induction rem as [|r IH]; intros idx nb used ctx; simpl;
    [apply same_window_refl|].
  destruct (idx * 2 <? wrap64 (size - 1)); [|apply same_window_refl].
  pose proof (ReadOne_same_window buf 2 ctx) as H.
  destruct (ReadOne buf 2 ctx) as [[w|] c1]; [|exact H].
  destruct (UTF16ToUTF8 w nb used size) as [b1 u1].
  eapply same_window_trans; [exact H | apply IH].
Qed.

Lemma ReadPrefixedUnicodeString_same_window (buf nb : list Z) (size : Z)
    (z : bool) (ctx : ParseContext) :
  same_window ctx (snd (ReadPrefixedUnicodeString buf nb size z ctx)).
Proof.
  unfold ReadPrefixedUnicodeString.
  pose proof (ReadOne_same_window buf 2 ctx) as H.
  destruct (ReadOne buf 2 ctx) as [[cnt|] c1]; [|exact H].
  pose proof (ReadUnits_same_window buf size (Z.to_nat cnt) 0 nb 0 c1) as H2.
  destruct (ReadUnits buf (Z.to_nat cnt) 0 nb 0 size c1) as [[[[b u] i]|] c2];
    simpl in *.
  - eapply same_window_trans; [exact H|].
    eapply same_window_trans; [exact H2 | apply same_window_set_offset].
  - eapply same_window_trans; eauto.
Qed.

(** ** Contextual key rewriting *)

Lemma GetProperKeyName_rule (c : ParseContext) (g : Globals) :
  GetProperKeyName c g
  = rule_key (GetName (nameStack g)) (GetUpperName (nameStack g)) (cachedValue c).
Proof.
  unfold GetProperKeyName, rule_key, streq.
  destruct (GetUpperName (nameStack g)) as [u|];
    destruct (GetName (nameStack g)) as [k|];
    repeat case_bool_decide; simpl; try reflexivity;
    try (exfalso; intuition congruence).
  all: try (destruct H2 as (? & ? & ?); congruence).
  all: try (exfalso; apply H2; repeat split; congruence).
Qed.

Lemma SetState_knownIDs (s : XmlParseState) (c c' : ParseContext)
    (g g' : Globals) (r : Outcome unit) :
  SetState s c g = (r, c', g') ->
  r = Ret tt /\ knownIDs g' = knownIDs g /\ cachedValue c' = cachedValue c
  /\ currentTemplatePtr c' = currentTemplatePtr c /\ offset c' = offset c.
Proof.
  unfold SetState. destruct (XmlParseState_eqb s (state c)).
  - intros [= <- <- <-]. auto.
  - intros [= <- <- <-]. destruct (state c); auto.
Qed.

Lemma update_current_template_same_ptr
    (f : TemplateDescription -> TemplateDescription) (c c' : ParseContext)
    (g : Globals) :
  currentTemplatePtr c' = currentTemplatePtr c ->
  update_current_template f c' g = update_current_template f c g.
Proof. unfold update_current_template. now intros ->. Qed.

(** C4: the key of every fixed-pair and argument-pair registration is the
    one the rewrite rule gives: the cached value when the top of the name
    stack is [Data], the name below it is [EventData] and the cached value
    is not empty, and the top of the name stack in every other case. *)
Theorem registrations_use_rule_key (buf : list Z) :
  (forall c g,
     GetProperKeyName c g
     = rule_key (GetName (nameStack g)) (GetUpperName (nameStack g))
         (cachedValue c))
  /\ (forall c g c' g',
        ParseValueText buf c g = (Ret tt, c', g') ->
        knownIDs g' = knownIDs g
        \/ exists k v,
             rule_key (GetName (nameStack g)) (GetUpperName (nameStack g))
               (cachedValue c) = Some k
             /\ knownIDs g'
                = knownIDs (update_current_template (RegisterFixedPair k v) c g))
  /\ (forall c g c' g',
        ParseOptionalSubstitution buf c g = (Ret tt, c', g') ->
        exists type argIdx,
          knownIDs g'
          = knownIDs
              (update_current_template
                 (RegisterArgPair
                    (rule_key (GetName (nameStack g))
                       (GetUpperName (nameStack g)) (cachedValue c))
                    type argIdx) c g)).
Proof.
  split; [apply GetProperKeyName_rule|]. split.
  - intros c g c' g'. unfold ParseValueText. munfold.
    pose proof (ReadOne_same_window buf 1 c) as W1.
    destruct (ReadOne buf 1 c) as [[st|] c1]; [|discriminate].
    pose proof (ReadPrefixedUnicodeString_same_window buf (char_array 256)
                  256 false c1) as W2.
    destruct (ReadPrefixedUnicodeString buf (char_array 256) 256 false c1)
      as [[vb|] c2]; [|discriminate].
    simpl in W1, W2.
    pose proof (same_window_trans _ _ _ W1 W2) as W.
    destruct W as (_ & _ & _ & _ & _ & Hp & Hcv).
    rewrite GetProperKeyName_rule, Hcv.
    destruct (rule_key _ _ _) as [k|] eqn:Ek.
    + destruct (match GetUpperName (nameStack g) with
                | Some u => _ | None => true end).
      * destruct (SetState StateNormal c2 _) as [[r c3] g3] eqn:Es.
        apply SetState_knownIDs in Es. destruct Es as (-> & Hk & _).
        intros [= <- <-]. right. exists k, (cstr vb). split; [reflexivity|].
        rewrite Hk. now rewrite (update_current_template_same_ptr _ c c2).
      * destruct (SetState StateNormal c2 g) as [[r c3] g3] eqn:Es.
        apply SetState_knownIDs in Es. destruct Es as (-> & Hk & _).
        intros [= <- <-]. now left.
    + destruct (SetState StateNormal c2 g) as [[r c3] g3] eqn:Es.
      apply SetState_knownIDs in Es. destruct Es as (-> & Hk & _).
      intros [= <- <-]. now left.
  - intros c g c' g'. unfold ParseOptionalSubstitution. munfold.
    pose proof (ReadOne_same_window buf 2 c) as W1.
    destruct (ReadOne buf 2 c) as [[idx|] c1]; [|discriminate].
    pose proof (ReadOne_same_window buf 1 c1) as W2.
    destruct (ReadOne buf 1 c1) as [[ty|] c2]; [|discriminate].
    simpl in W1, W2.
    pose proof (same_window_trans _ _ _ W1 W2) as W.
    destruct (ty =? 0).
    + pose proof (ReadOne_same_window buf 1 c2) as W3.
      destruct (ReadOne buf 1 c2) as [[ty'|] c3]; [|discriminate].
      simpl in W3.
      pose proof (same_window_trans _ _ _ W W3) as W'.
      destruct W' as (_ & _ & _ & _ & _ & Hp & Hcv).
      rewrite GetProperKeyName_rule, Hcv.
      destruct (SetState StateNormal c3 _) as [[r c4] g4] eqn:Es.
      apply SetState_knownIDs in Es. destruct Es as (-> & Hk & _).
      intros [= <- <-]. exists ty', idx.
      rewrite Hk. now rewrite (update_current_template_same_ptr _ c c3).
    + destruct W as (_ & _ & _ & _ & _ & Hp & Hcv).
      rewrite GetProperKeyName_rule, Hcv.
      destruct (SetState StateNormal c2 _) as [[r c4] g4] eqn:Es.
      apply SetState_knownIDs in Es. destruct Es as (-> & Hk & _).
      intros [= <- <-]. exists ty, idx.
      rewrite Hk. now rewrite (update_current_template_same_ptr _ c c2).
Qed.

Lemma registrations_use_rule_key_witness :
  let c := data_ctx 9 0 in
  let g := data_globals in
  let g' := snd (ParseValueText value_text_bytes c g) in
  let cs := data_ctx 3 0 in
  let gs := snd (ParseOptionalSubstitution substitution_bytes cs g) in
  rule_key (GetName (nameStack g)) (GetUpperName (nameStack g)) (cachedValue c)
  = Some (lit "SubjectUserName")
  /\ (fixed <$> knownIDs g' !! 7)
     = Some [mkTemplateFixedPair (lit "SubjectUserName") (lit "abc")]
  /\ (knownIDs g' = knownIDs g
      \/ exists k v,
           rule_key (GetName (nameStack g)) (GetUpperName (nameStack g))
             (cachedValue c) = Some k
           /\ knownIDs g'
              = knownIDs (update_current_template (RegisterFixedPair k v) c g))
  /\ fst (fst (ParseOptionalSubstitution substitution_bytes cs g)) = Ret tt
  /\ (knownIDs gs !! 7 ≫= (fun t => args t !! 5))
     = Some (mkTemplateArgPair (lit "SubjectUserName") 0x08)
  /\ (exists type argIdx,
        knownIDs gs
        = knownIDs
            (update_current_template
               (RegisterArgPair
                  (rule_key (GetName (nameStack g))
                     (GetUpperName (nameStack g)) (cachedValue cs))
                  type argIdx) cs g)).
Proof.
  split; [reflexivity|]. split; [reflexivity|].
  destruct (registrations_use_rule_key value_text_bytes) as (_ & Hfixed & _).
  destruct (registrations_use_rule_key substitution_bytes) as (_ & _ & Harg).
  split; [|split; [reflexivity | split; [reflexivity|]]].
  - apply (Hfixed (data_ctx 9 0) data_globals
             (snd (fst (ParseValueText value_text_bytes (data_ctx 9 0)
                          data_globals)))).
    reflexivity.
  - apply (Harg (data_ctx 3 0) data_globals
             (snd (fst (ParseOptionalSubstitution substitution_bytes
                          (data_ctx 3 0) data_globals)))).
    reflexivity.
Defined.

(** ** The typed argument renderer *)

Lemma advances_ret {A : Type} (a : A) : advances (ret a) 0.
Proof.
  intros c g a' c' g' _ _. munfold. intros [= <- <- <-].
  split; [lia | apply same_window_refl].
Qed.

Lemma advances_printf (f : string) (a : list PrintfArg) : advances (printf f a) 0.
Proof.
  intros c g a' c' g' _ _. munfold. intros [= <- <- <-].
  split; [lia | apply same_window_refl].
Qed.

Lemma advances_bind {A B : Type} (m : M A) (f : A -> M B) (k1 k2 : Z) :
  0 <= k1 -> 0 <= k2 ->
  advances m k1 -> (forall a, advances (f a) k2) ->
  advances (m ≫= f) (k1 + k2).
Proof.
  intros H1 H2 Hm Hf c g b c' g' Ho Hb. munfold.
  destruct (m c g) as [[[a| |] c1] g1] eqn:E; try discriminate.
  intros Hk.
  destruct (Hm c g a c1 g1) as (Ho1 & W1); [lia | lia | exact E |].
  destruct (Hf a c1 g1 b c' g') as (Ho2 & W2); [lia | lia | exact Hk |].
  split; [lia | eapply same_window_trans; eauto].
Qed.

Lemma advances_eq {A : Type} (m : M A) (k k' : Z) :
  advances m k -> k = k' -> advances m k'.
Proof. now intros H <-. Qed.

Lemma advances_ReadOne (buf : list Z) (sz : Z) :
  0 < sz -> advances (rd (ReadOne buf sz)) sz.
Proof.
  intros Hsz c g a c' g' Ho Hb. munfold.
  destruct (ReadOne buf sz c) as [[v|] c1] eqn:E; [|discriminate].
  intros [= <- <- <-].
  destruct (ReadOne_success buf c c1 sz v) as (_ & H & _ & W); auto.
Qed.

Lemma advances_ReadData (buf : list Z) (sz n : Z) :
  0 < sz -> 0 <= n -> advances (rd (ReadData buf sz n)) (n * sz).
Proof.
  intros Hsz Hn c g a c' g' Ho Hb. munfold.
  destruct (ReadData buf sz n c) as [[v|] c1] eqn:E; [|discriminate].
  intros [= <- <- <-].
  destruct (ReadData_success buf sz n c v c1) as (_ & H & W); auto; lia.
Qed.

Lemma advances_SkipBytes (n : Z) :
  0 <= n -> advances (modify_ctx (SkipBytes n)) n.
Proof.
  intros Hn c g a c' g' Ho Hb. munfold. intros [= <- <- <-].
  unfold SkipBytes. simpl. rewrite wrap64_small by lia.
  split; [reflexivity | apply same_window_set_offset].
Qed.

Lemma advances_get_ctx : advances get_ctx 0.
Proof.
  intros c g a c' g' _ _. munfold. intros [= <- <- <-].
  split; [lia | apply same_window_refl].
Qed.

Lemma advances_get_globals : advances get_globals 0.
Proof.
  intros c g a c' g' _ _. munfold. intros [= <- <- <-].
  split; [lia | apply same_window_refl].
Qed.

(** A call on another context object leaves this one alone. *)
Lemma advances_on_ctx {A : Type} (sub : ParseContext) (m : M A) :
  advances (on_ctx sub m) 0.
Proof.
  intros c g a c' g' _ _. munfold.
  destruct (m sub g) as [[[x| |] s1] g1]; try discriminate.
  intros [= <- <- <-]. split; [lia | apply same_window_refl].
Qed.

Lemma advances_on_ctx_ignoring {A : Type} (sub : ParseContext) (m : M A) :
  advances (on_ctx_ignoring sub m) 0.
Proof.
  intros c g a c' g' _ _. munfold.
  destruct (m sub g) as [[[x| |] s1] g1]; try discriminate;
    intros [= <- <- <-]; (split; [lia | apply same_window_refl]).
Qed.

#[local] Hint Resolve advances_ret advances_printf advances_get_ctx
  advances_get_globals advances_on_ctx advances_on_ctx_ignoring : evtx.

(** Sequencing where the first step reads and the rest only prints. *)
Lemma advances_then_still {A B : Type} (m : M A) (f : A -> M B) (k : Z) :
  0 <= k -> advances m k -> (forall a, advances (f a) 0) ->
  advances (m ≫= f) k.
Proof.
  intros Hk Hm Hf. eapply advances_eq;
    [apply (advances_bind m f k 0); auto; lia | lia].
Qed.

Lemma advances_still_then {A B : Type} (m : M A) (f : A -> M B) (k : Z) :
  0 <= k -> advances m 0 -> (forall a, advances (f a) k) ->
  advances (m ≫= f) k.
Proof.
  intros Hk Hm Hf. eapply advances_eq;
    [apply (advances_bind m f 0 k); auto; lia | lia].
Qed.

Section ArgumentFacts.

Variable UnixTimeFromFileTime : Z -> Z.
Variable gmtime_r : Z -> option tm.
Variable buf : list Z.

Lemma advances_StringLoop (size : Z) (rem : nat) :
  forall b u, advances (StringLoop buf rem b u size) (2 * Z.of_nat rem).
Proof.
  induction rem as [|r IH]; intros b u.
  - simpl. apply advances_ret.
  - change (StringLoop buf (S r) b u size) with
      (rd (ReadOne buf 2) ≫= fun v_w =>
         let '(b', u') := UTF16ToUTF8 v_w b u size in
         StringLoop buf r b' u' size).
    eapply advances_eq.
    + apply (advances_bind _ _ 2 (2 * Z.of_nat r)); try lia.
      * apply advances_ReadOne. lia.
      * intros w. destruct (UTF16ToUTF8 w b u size). apply IH.
    + lia.
Qed.

Lemma advances_BinaryLoop (rem : nat) :
  advances (BinaryLoop buf rem) (Z.of_nat rem).
Proof.
  induction rem as [|r IH].
  - simpl. apply advances_ret.
  - change (BinaryLoop buf (S r)) with
      (rd (ReadOne buf 1) ≫= fun v_b =>
         printf "%02X" [PNum v_b] ≫= fun _ => BinaryLoop buf r).
    eapply advances_eq.
    + apply (advances_bind _ _ 1 (Z.of_nat r)); try lia.
      * apply advances_ReadOne. lia.
      * intros v. apply advances_still_then; auto with evtx. lia.
    + lia.
Qed.

Lemma advances_SidLoop (argLen : Z) (rem : nat) :
  forall idx,
    idx <= argLen -> argLen - idx < 4 * (Z.of_nat rem + 1) ->
    advances (SidLoop buf rem idx argLen) (4 * ((argLen - idx) / 4)).
Proof.
  induction rem as [|r IH]; intros idx Hi Hf.
  - simpl. eapply advances_eq; [apply advances_ret|].
    rewrite Z.div_small; lia.
  - simpl. destruct (Z.leb_spec (idx + 4) argLen) as [Hle|Hgt].
    + eapply advances_eq.
      * apply (advances_bind _ _ 4 (4 * ((argLen - (idx + 4)) / 4))); try lia.
        -- apply Z.mul_nonneg_nonneg; [lia|]. apply Z.div_pos; lia.
        -- apply advances_ReadOne. lia.
        -- intros v. apply advances_still_then; auto with evtx.
           ++ apply Z.mul_nonneg_nonneg; [lia|]. apply Z.div_pos; lia.
           ++ intros _. apply IH; lia.
      * replace (argLen - idx) with ((argLen - (idx + 4)) + 1 * 4) by lia.
        rewrite Z.div_add by lia. lia.
    + eapply advances_eq; [apply advances_ret|].
      rewrite Z.div_small; lia.
Qed.

End ArgumentFacts.

Lemma advances_fail {A : Type} (k : Z) : advances (@fail A) k.
Proof. intros c g a c' g' _ _. munfold. discriminate. Qed.

Section RendererFacts.

Variable UnixTimeFromFileTime : Z -> Z.
Variable gmtime_r : Z -> option tm.
Variable buf : list Z.

(** Every branch of the [switch] moves the offset by [bytes_consumed]. *)
Lemma advances_ParseArgument (fuel : nat)
    (nested : list ParseContext -> Z -> M unit) (frames : list ParseContext)
    (argLen argType : Z) (argPair : TemplateArgPair) :
  0 <= argLen < 65536 ->
  advances
    (ParseArgument UnixTimeFromFileTime gmtime_r buf fuel nested frames
       argLen argType argPair)
    (bytes_consumed argType argLen).
Proof.
  intros Hl. unfold ParseArgument, bytes_consumed.
  assert (Hdiv : 0 <= argLen / 2) by (apply Z.div_pos; lia).
  destruct (argType =? 0x01).
  { (* string *)
    apply advances_then_still; [lia | |].
    - eapply advances_eq; [apply advances_StringLoop|].
      rewrite Z2Nat.id; lia.
    - intros [b u]. apply advances_printf. }
  destruct (argType =? 0x04).
  { apply advances_then_still; [lia | apply advances_ReadOne; lia |].
    intros v. apply advances_printf. }
  destruct (argType =? 0x06).
  { apply advances_then_still; [lia | apply advances_ReadOne; lia |].
    intros v. apply advances_still_then; [lia | apply advances_get_globals |].
    intros g0. destruct (eventDescriptionHashTable g0 !! v);
      [destruct (streq _ _)|]; apply advances_printf. }
  destruct (argType =? 0x08).
  { apply advances_then_still; [lia | apply advances_ReadOne; lia |].
    intros v.
    destruct (if streq (arg_key argPair) (lit "LogonType") && (v <=? 11)
              then nth (Z.to_nat v) logonTypes None else None);
      [apply advances_printf|].
    destruct (streq _ _ || streq _ _); apply advances_printf. }
  destruct (argType =? 0x0A).
  { apply advances_then_still; [lia | apply advances_ReadOne; lia |].
    intros v. apply advances_printf. }
  destruct (argType =? 0x0E).
  { apply advances_still_then; [lia | apply advances_printf |]. intros _.
    apply advances_then_still; [lia | |].
    - eapply advances_eq; [apply advances_BinaryLoop|].
      rewrite Z2Nat.id; lia.
    - intros _. apply advances_printf. }
  destruct (argType =? 0x0F).
  { apply advances_then_still; [lia | apply advances_ReadOne; lia |].
    intros v. apply advances_printf. }
  destruct (argType =? 0x14).
  { apply advances_then_still; [lia | apply advances_ReadOne; lia |].
    intros v. apply advances_printf. }
  destruct (argType =? 0x15).
  { apply advances_then_still; [lia | apply advances_ReadOne; lia |].
    intros v. apply advances_printf. }
  destruct (argType =? 0x11).
  { apply advances_then_still; [lia | apply advances_ReadOne; lia |].
    intros v. destruct (gmtime_r _); apply advances_printf. }
  destruct (argType =? 0x13).
  { (* SID *)
    destruct (Z.ltb_spec argLen 8) as [Hs|Hs]; [apply advances_fail|].
    assert (Hq : 0 <= 4 * ((argLen - 8) / 4))
      by (apply Z.mul_nonneg_nonneg; [lia|]; apply Z.div_pos; lia).
    apply advances_bind; [lia | exact Hq | |].
    - apply (advances_ReadData buf 1 8); lia.
    - intros sid. apply advances_still_then; [exact Hq | apply advances_printf |].
      intros _. apply advances_then_still; [exact Hq | |].
      + apply advances_SidLoop; [lia|]. rewrite Z2Nat.id; lia.
      + intros _. apply advances_printf. }
  destruct (argType =? 0x21).
  { (* nested BinXml: parsed on a copy, then skipped *)
    apply advances_still_then; [lia | apply advances_get_ctx |]. intros ctx.
    apply advances_still_then; [lia | apply advances_on_ctx_ignoring |].
    intros _. apply advances_SkipBytes. lia. }
  destruct (argType =? 0x81).
  { (* string array: read through a copy, then skipped *)
    apply advances_still_then; [lia | apply advances_get_ctx |]. intros ctx.
    apply advances_still_then; [lia | apply advances_printf |]. intros _.
    apply advances_still_then; [lia | apply advances_on_ctx |].
    intros [inString tmp].
    apply advances_still_then; [lia | apply advances_printf |]. intros _.
    apply advances_SkipBytes. lia. }
  (* unknown and void types *)
  apply advances_still_then; [lia | |].
  - destruct (negb _); [apply advances_printf | apply advances_ret].
  - intros _. apply advances_SkipBytes. lia.
Qed.

End RendererFacts.

Lemma bytes_consumed_fits (argType argLen : Z) :
  length_fits_type argType argLen -> bytes_consumed argType argLen = argLen.
Proof.
  unfold length_fits_type, fixed_width, bytes_consumed.
  repeat match goal with
  | |- context [argType =? ?k] =>
      destruct (Z.eqb_spec argType k) as [->|?]; simpl
  end; try lia; try congruence.
  - intros H. pose proof (Z.div_mod argLen 2). lia.
  - intros [H8 H]. pose proof (Z.div_mod (argLen - 8) 4).
    assert ((argLen - 8) mod 4 = 0).
    { replace (argLen - 8) with (argLen + (-2) * 4) by lia.
      rewrite Z.mod_add; lia. }
    lia.
Qed.

(** C1 (as amended): for a slot whose index has a declared entry, a
    successful rendering moves the offset by what the reader of the type
    consumes: the declared length for binary, nested BinXml, string arrays
    and unknown or void codes, the width of the type for the scalar codes,
    whole UTF-16 units for strings, and the header plus whole
    sub-authorities for SIDs; this is the declared length whenever that
    length is the one the type calls for. *)
Theorem ArgumentSlot_advance
    (UnixTimeFromFileTime : Z -> Z) (gmtime_r : Z -> option tm)
    (buf : list Z) (fuel : nat) (nested : list ParseContext -> Z -> M unit)
    (frames : list ParseContext) (argumentMap : list Z) (argumentIdx : Z)
    (c c' : ParseContext) (g g' : Globals) (argPair : TemplateArgPair) :
  let argLen := nth (Z.to_nat (argumentIdx * 2)) argumentMap 0 in
  let argType := nth (Z.to_nat (argumentIdx * 2 + 1)) argumentMap 0 in
  0 <= offset c < 2 ^ 63 -> 0 <= argLen < 65536 ->
  current_template c g ≫= (fun t => args t !! wrap16 argumentIdx) = Some argPair ->
  ArgumentSlot UnixTimeFromFileTime gmtime_r buf fuel nested frames
    argumentMap argumentIdx c g = (Ret tt, c', g') ->
  offset c' = offset c + bytes_consumed argType argLen
  /\ same_window c c'
  /\ (length_fits_type argType argLen -> offset c' = offset c + argLen)
  /\ (fixed_width argType = None -> argType <> 0x01 -> argType <> 0x13 ->
      offset c' = offset c + argLen).
Proof.
  intros argLen argType Ho Hl Hdecl. unfold ArgumentSlot. munfold.
  fold argLen argType. rewrite Hdecl. intros Hrun.
  assert (Hb : 0 <= bytes_consumed argType argLen <= 65536).
  { unfold bytes_consumed.
    pose proof (Z.div_mod argLen 2). pose proof (Z.mod_pos_bound argLen 2).
    pose proof (Z.div_mod (argLen - 8) 4).
    pose proof (Z.mod_pos_bound (argLen - 8) 4).
    repeat match goal with
    | |- context [argType =? ?k] => destruct (argType =? k)
    end; lia. }
  destruct (advances_ParseArgument UnixTimeFromFileTime gmtime_r buf fuel
              nested frames argLen argType argPair Hl c g tt c' g')
    as (Hoff & Hw); [lia | lia | exact Hrun |].
  split; [exact Hoff|]. split; [exact Hw|]. split.
  - intros Hfit. rewrite Hoff. f_equal. now apply bytes_consumed_fits.
  - intros Hfw H1 H13. rewrite Hoff. f_equal. apply bytes_consumed_fits.
    unfold length_fits_type. rewrite Hfw.
    destruct (Z.eqb_spec argType 1); [contradiction|].
    destruct (Z.eqb_spec argType 19); [contradiction|]. exact I.
Qed.

Lemma ArgumentSlot_advance_witness :
  let r := run_slot [7] [1; 0x04] 1 in
  offset (snd (fst r)) = offset (flag_ctx 1) + bytes_consumed 0x04 1
  /\ same_window (flag_ctx 1) (snd (fst r))
  /\ (length_fits_type 0x04 1 -> offset (snd (fst r)) = offset (flag_ctx 1) + 1)
  /\ (fixed_width 0x04 = None -> 0x04 <> 0x01 -> 0x04 <> 0x13 ->
      offset (snd (fst r)) = offset (flag_ctx 1) + 1).
Proof.
  apply (ArgumentSlot_advance sample_UnixTimeFromFileTime sample_gmtime_r
           [7] 16
           (ParseBinXml sample_strtoul sample_UnixTimeFromFileTime
              sample_gmtime_r [7] 16)
           [] [1; 0x04] 0 (flag_ctx 1) (snd (fst (run_slot [7] [1; 0x04] 1)))
           flag_globals (snd (run_slot [7] [1; 0x04] 1))
           (mkTemplateArgPair (lit "Flag") 0x04)).
  - simpl. lia.
  - simpl. lia.
  - reflexivity.
  - reflexivity.
Defined.

(** C1 as stated fails: a slot declared with length 2 and the one-byte type
    0x04 renders successfully and leaves the offset one byte further, not
    two. *)
Lemma ArgumentSlot_scalar_ignores_length :
  let r := run_slot [7; 9] [2; 0x04] 2 in
  (current_template (flag_ctx 2) flag_globals ≫= (fun t => args t !! 0))
    = Some (mkTemplateArgPair (lit "Flag") 0x04)
  /\ fst (fst r) = Ret tt
  /\ offset (snd (fst r)) = 1
  /\ offset (snd (fst r)) <> offset (flag_ctx 2) + 2.
Proof. vm_compute. repeat split; congruence. Qed.

(** The same happens for a string of odd length and for a SID whose
    length is not a whole number of sub-authorities. *)
Lemma ArgumentSlot_string_and_sid_round_down :
  offset (snd (fst (run_slot [0x61; 0; 0x62] [3; 0x01] 3))) = 2
  /\ offset (snd (fst (run_slot [1; 1; 0; 0; 0; 0; 0; 5; 21; 0; 0; 0; 9; 9]
                         [14; 0x13] 14))) = 12.
Proof. vm_compute. split; reflexivity. Qed.

(** ** The walker *)

Lemma ChunkReset_empty (g : Globals) :
  knownIDs (ChunkReset g) = ∅ /\ depth (nameStack (ChunkReset g)) = 0.
Proof. split; reflexivity. Qed.

Section WalkerFacts.

Variable strtoul : list Z -> Z.
Variable UnixTimeFromFileTime : Z -> Z.
Variable gmtime_r : Z -> option tm.


Lemma record_size_range (chunk : list Z) (i : Z) :
  0 <= record_size chunk i < 2 ^ 32.
Proof. unfold record_size. apply (load_range chunk 4). Qed.

(** A record walk that ends on a record that does not decode. *)
Lemma RecordLoop_DecodeFailed (chunk : list Z) (off : Z) (n : nat) :
  forall i g r at_ i' g',
    0 <= i < 2 ^ 63 ->
    RecordLoop strtoul UnixTimeFromFileTime gmtime_r n chunk off i g = Some (r, DecodeFailed at_, i', g') ->
    i' = at_ /\ 0 <= at_ /\ at_ + 24 <= 0x10000
    /\ r = negb (in_chunk_range chunk (record_number chunk at_))
    /\ exists m g1,
         ParseBinXmlPre strtoul UnixTimeFromFileTime gmtime_r m chunk EVTX_CHUNK_SIZE off (at_ + 24) g1 = (Fail, g').
Proof.
  induction n as [|n IH]; intros i g r at_ i' g' Hi; simpl; [discriminate|].
  unfold sizeof_EvtxRecordHeader, EVTX_CHUNK_SIZE.
  rewrite (wrap64_small (i + 24)) by lia.
  destruct (Z.gtb_spec (i + 24) 65536) as [Hg|Hg]; [discriminate|].
  destruct (negb (record_magic chunk i =? 10794)); [discriminate|].
  destruct (gmtime_r _) as [t|]; [|discriminate].
  match goal with
  | |- context [ParseBinXmlPre strtoul UnixTimeFromFileTime gmtime_r n chunk 65536 off (i + 24) ?g1] =>
      destruct (ParseBinXmlPre strtoul UnixTimeFromFileTime gmtime_r n chunk 65536 off (i + 24) g1)
        as [[[]| |] g2] eqn:E
  end.
  - intros H. apply IH in H; [exact H|].
    pose proof (record_size_range chunk i).
    rewrite wrap64_small; lia.
  - intros [= <- <- <- <-]. repeat split; try lia. eauto.
  - discriminate.
Qed.

Lemma ChunkLoop_success_empty (f : File) (n : nat) :
  forall off g g',
    ChunkLoop strtoul UnixTimeFromFileTime gmtime_r n f off g = Some (true, g') ->
    knownIDs g' = ∅ /\ depth (nameStack g') = 0.
Proof.
  induction n as [|n IH]; intros off g g'; simpl; [discriminate|].
  unfold ChunkIteration.
  destruct (negb (wrap64 (lseek f off) =? off)); [discriminate|].
  destruct (negb (Z.of_nat (length (file_read f off EVTX_CHUNK_SIZE))
                  =? EVTX_CHUNK_SIZE)).
  { intros [= <-]. apply ChunkReset_empty. }
  destruct (negb (bool_decide _)).
  { intros [= <-]. apply ChunkReset_empty. }
  destruct (RecordLoop strtoul UnixTimeFromFileTime gmtime_r n _ off sizeof_EvtxChunkHeader (ChunkReset g))
    as [[[[r e] i] g1]|]; [|discriminate].
  destruct (i >? wrap64 (off + EVTX_CHUNK_SIZE)); [discriminate|].
  destruct r; [|discriminate].
  apply IH.
Qed.

(** C2 (as amended): the template cache and the name stack are empty when
    the record walk of a chunk starts, because every chunk iteration begins
    by resetting both; and they are empty whenever the walk of a file
    returns success. *)
Theorem walker_resets_at_chunk_start :
  (forall fuel f off g,
     wrap64 (lseek f off) = off ->
     let chunk := file_read f off EVTX_CHUNK_SIZE in
     Z.of_nat (length chunk) = EVTX_CHUNK_SIZE ->
     firstn 8 chunk = EVTX_CHUNK_HEADER_MAGIC ->
     exists g0,
       knownIDs g0 = ∅ /\ depth (nameStack g0) = 0
       /\ ChunkIteration strtoul UnixTimeFromFileTime gmtime_r fuel f off g
          = match RecordLoop strtoul UnixTimeFromFileTime gmtime_r fuel chunk off sizeof_EvtxChunkHeader g0 with
            | None => None
            | Some (result, _, inRecordOff, g') =>
                let off' := wrap64 (off + EVTX_CHUNK_SIZE) in
                if inRecordOff >? off' then Some (StopWalk false, g')
                else if result then Some (NextChunk off', g')
                else Some (StopWalk false, g')
            end)
  /\ (forall fuel f g g',
        ParseEVTXInt strtoul UnixTimeFromFileTime gmtime_r fuel f g = Some (true, g') ->
        knownIDs g' = ∅ /\ depth (nameStack g') = 0).
Proof.
  split.
  - intros fuel f off g Hseek chunk Hlen Hmagic.
    exists (ChunkReset g). split; [reflexivity|]. split; [reflexivity|].
    unfold ChunkIteration. fold chunk.
    rewrite Hseek, Z.eqb_refl, Hlen, Z.eqb_refl.
    rewrite bool_decide_eq_true_2 by exact Hmagic. reflexivity.
  - intros fuel f g g'. unfold ParseEVTXInt.
    destruct (negb _); [discriminate|].
    destruct (negb _); [discriminate|].
    apply ChunkLoop_success_empty.
Qed.

(** A record that decodes lets the walk go on with the record that starts
    [size] bytes further, after the end of its output line. *)
Lemma RecordLoop_decoded_record_walks_on (chunk : list Z) (off at_ : Z)
    (n : nat) (g g2 : Globals) (t : tm) :
  0 <= at_ -> at_ + sizeof_EvtxRecordHeader <= EVTX_CHUNK_SIZE ->
  record_magic chunk at_ = 0x00002a2a ->
  gmtime_r (UnixTimeFromFileTime (record_timestamp chunk at_)) = Some t ->
  ParseBinXmlPre strtoul UnixTimeFromFileTime gmtime_r n chunk EVTX_CHUNK_SIZE
    off (at_ + sizeof_EvtxRecordHeader) (emit (record_line chunk at_ t) g)
    = (Ret tt, g2) ->
  RecordLoop strtoul UnixTimeFromFileTime gmtime_r (S n) chunk off at_ g
  = RecordLoop strtoul UnixTimeFromFileTime gmtime_r n chunk off
      (at_ + record_size chunk at_) (emit (mkPrintf "\n" []) g2).
Proof.
  intros H0 H1 Hm Ht Hd. cbn [RecordLoop].
  unfold sizeof_EvtxRecordHeader, EVTX_CHUNK_SIZE, record_line in *.
  rewrite (wrap64_small (at_ + 24)) by lia.
  destruct (Z.gtb_spec (at_ + 24) 65536) as [|_]; [lia|].
  rewrite Hm. change (negb (0x00002a2a =? 0x00002a2a)) with false. cbv iota.
  rewrite Ht, Hd.
  pose proof (record_size_range chunk at_).
  rewrite wrap64_small by lia. reflexivity.
Qed.

(** A record whose decode fails is where the record loop leaves, with
    [result] cleared exactly when the record's number lies in the range the
    chunk header declares; nothing is printed after the failure. *)
Lemma RecordLoop_failed_record (chunk : list Z) (off at_ : Z) (n : nat)
    (g g' : Globals) (t : tm) :
  0 <= at_ -> at_ + sizeof_EvtxRecordHeader <= EVTX_CHUNK_SIZE ->
  record_magic chunk at_ = 0x00002a2a ->
  gmtime_r (UnixTimeFromFileTime (record_timestamp chunk at_)) = Some t ->
  ParseBinXmlPre strtoul UnixTimeFromFileTime gmtime_r n chunk EVTX_CHUNK_SIZE
    off (at_ + sizeof_EvtxRecordHeader) (emit (record_line chunk at_ t) g)
    = (Fail, g') ->
  RecordLoop strtoul UnixTimeFromFileTime gmtime_r (S n) chunk off at_ g
  = Some (negb (in_chunk_range chunk (record_number chunk at_)),
          DecodeFailed at_, at_, g').
Proof.
  intros H0 H1 Hm Ht Hd. cbn [RecordLoop].
  unfold sizeof_EvtxRecordHeader, EVTX_CHUNK_SIZE, record_line in *.
  rewrite (wrap64_small (at_ + 24)) by lia.
  destruct (Z.gtb_spec (at_ + 24) 65536) as [|_]; [lia|].
  rewrite Hm. change (negb (0x00002a2a =? 0x00002a2a)) with false. cbv iota.
  rewrite Ht, Hd. reflexivity.
Qed.

(** C3: when the record walk of a chunk arrives at a record (a valid
    record header with a timestamp [gmtime_r] accepts) whose BinXml decode
    fails, the walk of that chunk ends at that record, with nothing more
    decoded or printed; the walk is marked failed exactly when the record's
    number lies in the range the chunk header declares, and then the walker
    returns failure and [ParseEVTX] prints [Failed on <path>]; otherwise
    nothing is reported and the walker goes on with the chunk 64 KiB
    further.  The walk arrives at the record at [at_] with globals [g] when
    the record loop started at the chunk's first record continues as the
    record loop at [at_] from [g]: this holds of the first record itself,
    and of the record after one that decoded. *)
Theorem failed_record_ends_chunk (n0 n : nat) (f : File) (off : Z)
    (g0 g g' : Globals) (at_ : Z) (t : tm) :
  seekable f = true -> 0 <= off < 2 ^ 63 ->
  let chunk := file_read f off EVTX_CHUNK_SIZE in
  Z.of_nat (length chunk) = EVTX_CHUNK_SIZE ->
  firstn 8 chunk = EVTX_CHUNK_HEADER_MAGIC ->
  RecordLoop strtoul UnixTimeFromFileTime gmtime_r n0 chunk off
    sizeof_EvtxChunkHeader (ChunkReset g0)
  = RecordLoop strtoul UnixTimeFromFileTime gmtime_r (S n) chunk off at_ g ->
  0 <= at_ -> at_ + sizeof_EvtxRecordHeader <= EVTX_CHUNK_SIZE ->
  record_magic chunk at_ = 0x00002a2a ->
  gmtime_r (UnixTimeFromFileTime (record_timestamp chunk at_)) = Some t ->
  ParseBinXmlPre strtoul UnixTimeFromFileTime gmtime_r n chunk EVTX_CHUNK_SIZE
    off (at_ + sizeof_EvtxRecordHeader) (emit (record_line chunk at_ t) g)
    = (Fail, g') ->
  let number := record_number chunk at_ in
  let in_range :=
    chunk_firstRecordNumber chunk <= number <= chunk_lastRecordNumber chunk in
  exists result,
    RecordLoop strtoul UnixTimeFromFileTime gmtime_r n0 chunk off
      sizeof_EvtxChunkHeader (ChunkReset g0)
    = Some (result, DecodeFailed at_, at_, g')
    /\ (result = false <-> in_range)
    /\ (in_range ->
        ChunkLoop strtoul UnixTimeFromFileTime gmtime_r (S n0) f off g0
        = Some (false, g')
        /\ (off = sizeof_EvtxHeader ->
            Z.of_nat (length (file_read f 0 sizeof_EvtxHeader))
            = sizeof_EvtxHeader ->
            header_version (file_read f 0 sizeof_EvtxHeader) = 0x00030001 ->
            forall fileName,
              ParseEVTX strtoul UnixTimeFromFileTime gmtime_r (S n0) (Some f)
                fileName g0
              = Some (false,
                      emit (mkPrintf "Failed on %s\n" [PStr fileName]) g')))
    /\ (~ in_range ->
        ChunkIteration strtoul UnixTimeFromFileTime gmtime_r n0 f off g0
        = Some (NextChunk (off + EVTX_CHUNK_SIZE), g')
        /\ ChunkLoop strtoul UnixTimeFromFileTime gmtime_r (S n0) f off g0
           = ChunkLoop strtoul UnixTimeFromFileTime gmtime_r n0 f
               (off + EVTX_CHUNK_SIZE) g').
Proof.
  intros Hseek Hoff chunk Hlen Hmagic Harrive Hat0 Hat Hrm Ht Hdec number
    in_range.
  pose proof (RecordLoop_failed_record chunk off at_ n g g' t Hat0 Hat Hrm Ht
                Hdec) as Hstep.
  rewrite <- Harrive in Hstep. fold number in Hstep.
  set (result := negb (in_chunk_range chunk number)) in *.
  exists result. split; [exact Hstep|].
  assert (Hrange : in_chunk_range chunk number = true <-> in_range).
  { unfold in_chunk_range, in_range. rewrite andb_true_iff.
    rewrite Z.geb_le, Z.leb_le. tauto. }
  assert (Hiter : ChunkIteration strtoul UnixTimeFromFileTime gmtime_r n0 f off g0
                  = if result then Some (NextChunk (off + EVTX_CHUNK_SIZE), g')
                    else Some (StopWalk false, g')).
  { unfold ChunkIteration. fold chunk. unfold lseek. rewrite Hseek.
    destruct (Z.ltb_spec off (2 ^ 63)) as [_|]; [|lia]. simpl.
    rewrite (wrap64_small off) by lia.
    rewrite Z.eqb_refl, Hlen, Z.eqb_refl. simpl.
    rewrite bool_decide_eq_true_2 by exact Hmagic. simpl.
    rewrite Hstep. unfold EVTX_CHUNK_SIZE, sizeof_EvtxRecordHeader in *.
    rewrite (wrap64_small (off + 65536)) by lia.
    destruct (Z.gtb_spec at_ (off + 65536)); [lia|]. reflexivity. }
  split; [|split].
  - unfold result. rewrite <- Hrange.
    destruct (in_chunk_range chunk number); simpl; split; congruence.
  - intros Hin. apply Hrange in Hin.
    assert (Hres : result = false) by (unfold result; now rewrite Hin).
    assert (Hloop : ChunkLoop strtoul UnixTimeFromFileTime gmtime_r (S n0) f off g0
                    = Some (false, g')).
    { cbn [ChunkLoop]. rewrite Hiter, Hres. reflexivity. }
    split; [exact Hloop|].
    intros -> Hhl Hv fileName. unfold ParseEVTX, ParseEVTXInt.
    rewrite Hhl, Z.eqb_refl, Hv, Z.eqb_refl. simpl negb. cbv iota.
    rewrite Hloop. reflexivity.
  - intros Hout.
    assert (Hres : result = true).
    { unfold result.
      destruct (in_chunk_range chunk number) eqn:E; [|reflexivity].
      exfalso. apply Hout, Hrange. reflexivity. }
    rewrite Hiter, Hres. split; [reflexivity|].
    cbn [ChunkLoop]. rewrite Hiter, Hres. reflexivity.
Qed.

End WalkerFacts.

Lemma walker_resets_at_chunk_start_witness :
  exists g',
    sample_ParseEVTXInt 40 template_file fresh_globals = Some (true, g')
    /\ knownIDs g' = ∅ /\ depth (nameStack g') = 0.
Proof.
  assert (H : fst <$> sample_ParseEVTXInt 40 template_file fresh_globals
              = Some true) by (vm_compute; reflexivity).
  destruct (ParseEVTXInt sample_strtoul sample_UnixTimeFromFileTime
              sample_gmtime_r 40 template_file fresh_globals)
    as [[r g']|] eqn:E; [|discriminate].
  simpl in H. injection H as ->. exists g'. split; [reflexivity|].
  exact (proj2 (walker_resets_at_chunk_start sample_strtoul
                  sample_UnixTimeFromFileTime sample_gmtime_r)
           40%nat template_file fresh_globals g' E).
Defined.

(** C2 as stated fails: when the record walk of this chunk has ended (on
    the bytes after its only record, which are no record header), the
    template cache holds template 0x1234 and the name stack holds [Event]. *)
Lemma record_walk_leaves_cache_and_names :
  exists g',
    sample_RecordLoop 40 template_file fresh_globals
      = Some (true, BadRecordMagic, 615, g')
    /\ knownIDs g' !! 0x1234 = Some TemplateDescription_new
    /\ knownIDs g' <> ∅
    /\ depth (nameStack g') = 1
    /\ GetName (nameStack g') = Some (lit "Event").
Proof.
  assert (H : walk_summary (sample_RecordLoop 40 template_file fresh_globals)
              = Some (true, BadRecordMagic, 615)) by (vm_compute; reflexivity).
  assert (H1 : (fun r => knownIDs (snd r) !! 0x1234)
                 <$> sample_RecordLoop 40 template_file fresh_globals
               = Some (Some TemplateDescription_new))
    by (vm_compute; reflexivity).
  assert (H2 : (fun r => (depth (nameStack (snd r)), GetName (nameStack (snd r))))
                 <$> sample_RecordLoop 40 template_file fresh_globals
               = Some (1, Some (lit "Event")))
    by (vm_compute; reflexivity).
  destruct (sample_RecordLoop 40 template_file fresh_globals)
    as [[[[r e] i] g']|]; [|discriminate].
  simpl in H, H1, H2. injection H as -> -> ->. injection H1 as H1.
  injection H2 as H2 H3.
  exists g'. repeat split; auto.
  intros Hem. rewrite Hem, lookup_empty in H1. discriminate.
Qed.

Lemma failed_record_ends_chunk_witness :
  (sample_RecordLoop 40 bad_record_in_range fresh_globals
   = Some (false, DecodeFailed 512, 512,
           emit (record_line (sample_chunk_of bad_record_in_range) 512
                   (mkTm 70 0 1 0 0 0))
             (ChunkReset fresh_globals))
   /\ sample_ParseEVTX 41 bad_record_in_range fresh_globals
      = Some (false,
              emit (mkPrintf "Failed on %s\n" [PStr (lit "sample.evtx")])
                (emit (record_line (sample_chunk_of bad_record_in_range) 512
                         (mkTm 70 0 1 0 0 0))
                   (ChunkReset fresh_globals))))
  /\ (sample_RecordLoop 40 bad_record_out_of_range fresh_globals
      = Some (true, DecodeFailed 512, 512,
              emit (record_line (sample_chunk_of bad_record_out_of_range) 512
                      (mkTm 70 0 1 0 0 0))
                (ChunkReset fresh_globals))
      /\ ChunkIteration sample_strtoul sample_UnixTimeFromFileTime
           sample_gmtime_r 40 bad_record_out_of_range sizeof_EvtxHeader
           fresh_globals
         = Some (NextChunk (sizeof_EvtxHeader + EVTX_CHUNK_SIZE),
                 emit (record_line (sample_chunk_of bad_record_out_of_range)
                         512 (mkTm 70 0 1 0 0 0))
                   (ChunkReset fresh_globals)))
  /\ sample_RecordLoop 40 bad_second_record fresh_globals
     = Some (false, DecodeFailed 615, 615,
             emit (record_line (sample_chunk_of bad_second_record) 615
                     (mkTm 70 0 1 0 0 0))
               after_first_record).
Proof.
  split; [|split].
  - destruct (failed_record_ends_chunk sample_strtoul
                sample_UnixTimeFromFileTime sample_gmtime_r 40 39
                bad_record_in_range sizeof_EvtxHeader fresh_globals
                (ChunkReset fresh_globals)
                (emit (record_line (sample_chunk_of bad_record_in_range) 512
                         (mkTm 70 0 1 0 0 0))
                   (ChunkReset fresh_globals))
                512 (mkTm 70 0 1 0 0 0))
      as (result & Hwalk & Hres & Hin & _);
      [ reflexivity | unfold sizeof_EvtxHeader; lia
      | vm_compute; reflexivity | vm_compute; reflexivity
      | reflexivity | lia | vm_compute; discriminate
      | vm_compute; reflexivity | reflexivity | vm_compute; reflexivity | ].
    assert (Hr : chunk_firstRecordNumber (sample_chunk_of bad_record_in_range)
                 <= record_number (sample_chunk_of bad_record_in_range) 512
                 <= chunk_lastRecordNumber (sample_chunk_of bad_record_in_range))
      by (vm_compute; split; discriminate).
    destruct (Hin Hr) as (_ & Hfile).
    apply Hres in Hr. subst result.
    split; [exact Hwalk|].
    apply Hfile; [reflexivity | vm_compute; reflexivity | vm_compute; reflexivity].
  - destruct (failed_record_ends_chunk sample_strtoul
                sample_UnixTimeFromFileTime sample_gmtime_r 40 39
                bad_record_out_of_range sizeof_EvtxHeader fresh_globals
                (ChunkReset fresh_globals)
                (emit (record_line (sample_chunk_of bad_record_out_of_range)
                         512 (mkTm 70 0 1 0 0 0))
                   (ChunkReset fresh_globals))
                512 (mkTm 70 0 1 0 0 0))
      as (result & Hwalk & Hres & _ & Hout);
      [ reflexivity | unfold sizeof_EvtxHeader; lia
      | vm_compute; reflexivity | vm_compute; reflexivity
      | reflexivity | lia | vm_compute; discriminate
      | vm_compute; reflexivity | reflexivity | vm_compute; reflexivity | ].
    assert (Hr : ~ (chunk_firstRecordNumber
                      (sample_chunk_of bad_record_out_of_range)
                    <= record_number
                         (sample_chunk_of bad_record_out_of_range) 512
                    <= chunk_lastRecordNumber
                         (sample_chunk_of bad_record_out_of_range)))
      by (vm_compute; intros [_ H]; apply H; reflexivity).
    destruct (Hout Hr) as (Hiter & _).
    assert (Ht : result = true)
      by (destruct result; [reflexivity | exfalso; apply Hr, Hres; reflexivity]).
    subst result. split; [exact Hwalk | exact Hiter].
  - destruct (failed_record_ends_chunk sample_strtoul
                sample_UnixTimeFromFileTime sample_gmtime_r 40 38
                bad_second_record sizeof_EvtxHeader fresh_globals
                after_first_record
                (emit (record_line (sample_chunk_of bad_second_record) 615
                         (mkTm 70 0 1 0 0 0))
                   after_first_record)
                615 (mkTm 70 0 1 0 0 0))
      as (result & Hwalk & Hres & _ & _);
      [ reflexivity | unfold sizeof_EvtxHeader; lia
      | vm_compute; reflexivity | vm_compute; reflexivity
      | vm_compute; reflexivity | lia | vm_compute; discriminate
      | vm_compute; reflexivity | reflexivity | vm_compute; reflexivity | ].
    assert (Hr : chunk_firstRecordNumber (sample_chunk_of bad_second_record)
                 <= record_number (sample_chunk_of bad_second_record) 615
                 <= chunk_lastRecordNumber (sample_chunk_of bad_second_record))
      by (vm_compute; split; discriminate).
    apply Hres in Hr. subst result. exact Hwalk.
Defined.

(** The same record with a number outside the declared range: the walk is
    not marked failed, and the file ends normally at the next chunk. *)
Lemma failed_record_out_of_range_is_silent :
  walk_summary (sample_RecordLoop 40 bad_record_out_of_range fresh_globals)
    = Some (true, DecodeFailed 512, 512)
  /\ fst <$> sample_ParseEVTX 41 bad_record_out_of_range fresh_globals
     = Some true.
Proof. split; vm_compute; reflexivity. Qed.

(** The consequence of C8 for decoding: in [nested_file] the inner window
    is created by [InheritWithOffset] from the outer window, so its
    [chunkContext] is the outer window (address 1), and the reference to
    the name at chunk offset 0x249 is looked up inside that 83-byte window
    and fails, and the record with it; through the chunk context
    (address 0) the same reference yields [Event]. *)
Lemma nested_template_name_lookup_fails :
  chunkContext (InheritWithOffset indeterminate outer_window 1%nat 13) = 1%nat
  /\ name_through 1%nat = None
  /\ name_through 0%nat = Some (lit "Event")
  /\ walk_summary (sample_RecordLoop 60 nested_file fresh_globals)
     = Some (false, DecodeFailed 512, 512).
Proof. repeat split; vm_compute; reflexivity. Qed.

(** ** The decoder returns

    With a step budget larger than the window, [ParseBinXml] never runs out
    of it: every iteration of its loop consumes at least the tag byte, and
    every nested call works on a strictly shorter window. *)

Section ReaderBounds.

Variable buf : list Z.






End ReaderBounds.

Section Returns.

Variable buf : list Z.
Variables lo D : Z.
Hypothesis lo_nonneg : 0 <= lo.
























End Returns.




Section ReturnsNested.

Variable strtoul : list Z -> Z.
Variable UnixTimeFromFileTime : Z -> Z.
Variable gmtime_r : Z -> option tm.
Variable buf : list Z.
Variables lo D : Z.
Variable fuel : nat.
Variable nested : list ParseContext -> Z -> M unit.

Hypothesis lo_nonneg : 0 <= lo.
Hypothesis lo_in_window : lo <= D.
Hypothesis window_small : D <= 2 ^ 32.
Hypothesis fuel_covers : D - lo < Z.of_nat fuel.

(** The recursive call returns on every window no longer than what is left
    of this one. *)
Hypothesis nested_returns :
  forall frames z sub g,
    0 <= offset sub < 2 ^ 63 -> dataLen sub <= 2 ^ 32 ->
    Z.max 0 (dataLen sub - offset sub) <= D - lo ->
    fst (fst (nested frames z sub g)) <> OutOfFuel.













End ReturnsNested.

Section DecoderReturns.

Variable strtoul : list Z -> Z.
Variable UnixTimeFromFileTime : Z -> Z.
Variable gmtime_r : Z -> option tm.
Variable buf : list Z.



End DecoderReturns.


(** ** Further properties of the byte reader and the containers *)

(** A child window always lies inside its parent's window: it starts at the
    parent's offset, is no longer than requested, does not reach past the
    end of the parent's window, and is empty when the parent's offset is
    already at or past that end; its own offset and cached value start
    empty. *)
Theorem InheritWithOffset_inside_parent (this other : ParseContext)
    (a : ctx_ptr) (len : Z) :
  0 <= offset other -> 0 <= len -> offset other + len < 2 ^ 64 ->
  0 <= dataLen other < 2 ^ 64 ->
  let child := InheritWithOffset this other a len in
  data child = data other + offset other
  /\ offset child = 0
  /\ cachedValue child = []
  /\ 0 <= dataLen child <= len
  /\ (offset other <= dataLen other ->
      data child + dataLen child <= data other + dataLen other)
  /\ (dataLen other <= offset other -> dataLen child = 0).
Proof.
  intros Ho Hl Hb Hd. unfold InheritWithOffset. simpl.
  rewrite (wrap64_small (offset other + len)) by lia.
  repeat split;
    destruct (Z.gtb_spec (offset other + len) (dataLen other));
    destruct (Z.geb_spec (offset other) (dataLen other));
    try rewrite wrap64_small; lia.
Qed.

Lemma InheritWithOffset_inside_parent_witness :
  let child := InheritWithOffset indeterminate template_body_ctx 1%nat 0x100 in
  data child = 0x310 /\ offset child = 0 /\ cachedValue child = []
  /\ 0 <= dataLen child <= 0x100
  /\ (offset template_body_ctx <= dataLen template_body_ctx ->
      data child + dataLen child
      <= data template_body_ctx + dataLen template_body_ctx)
  /\ (dataLen template_body_ctx <= offset template_body_ctx ->
      dataLen child = 0).
Proof.
  apply (InheritWithOffset_inside_parent indeterminate template_body_ctx
           1%nat 0x100); simpl; lia.
Defined.

Lemma NameStack_ok_run_op (op : NameStackOp) (s : NameStack) :
  NameStack_ok s -> NameStack_ok (run_op op s).
Proof.
  unfold NameStack_ok. intros [Hl Hp].
  destruct op; simpl; unfold NameStack_Reset, PushName, PopName,
    MAX_NAME_STACK_DEPTH, INVALID_STACK_DEPTH; simpl; auto; try lia.
  - destruct (Z.geb_spec (nameStackPtr s + 1) 20); simpl;
      rewrite ?length_insert; split; auto; lia.
  - destruct (Z.gtb_spec (nameStackPtr s) (-1)); simpl; split; auto; lia.
Qed.

(** Pushing a name on a stack that is not full makes it the top (cut to
    255 bytes) with the old top right below it, and popping it again gives
    back the old top and depth; nothing below is disturbed. *)
Theorem PushName_then_top (name : list Z) (s : NameStack) :
  NameStack_ok s -> depth s < 20 ->
  GetName (PushName name s) = Some (firstn 255 name)
  /\ GetUpperName (PushName name s) = GetName s
  /\ depth (PushName name s) = depth s + 1
  /\ depth (PopName (PushName name s)) = depth s
  /\ GetName (PopName (PushName name s)) = GetName s
  /\ GetUpperName (PopName (PushName name s)) = GetUpperName s.
Proof.
  unfold NameStack_ok, depth. intros [Hl Hp] Hd.
  unfold PushName, PopName, GetName, GetUpperName,
    MAX_NAME_STACK_DEPTH, INVALID_STACK_DEPTH, maxNameStackDepth in *.
  destruct (Z.geb_spec (nameStackPtr s + 1) 20) as [|_]; [lia|]. simpl.
  destruct (Z.gtb_spec (nameStackPtr s + 1) (-1)) as [_|]; [|lia]. simpl.
  replace (nameStackPtr s + 1 - 1) with (nameStackPtr s) by lia.
  assert (Hn : forall k, 0 <= k -> k <> nameStackPtr s + 1 ->
            nth (Z.to_nat k)
              (<[Z.to_nat (nameStackPtr s + 1) := firstn 255 name]> (names s)) []
            = nth (Z.to_nat k) (names s) []).
  { intros k Hk Hne. rewrite !nth_lookup.
    rewrite list_lookup_insert_ne by lia. reflexivity. }
  assert (Htop : nth (Z.to_nat (nameStackPtr s + 1))
                   (<[Z.to_nat (nameStackPtr s + 1) := firstn 255 name]> (names s)) []
                 = firstn 255 name).
  { rewrite nth_lookup, list_lookup_insert_eq by lia. reflexivity. }
  repeat split; try lia.
  - destruct (Z.leb_spec (nameStackPtr s + 1) (-1)); [lia|].
    destruct (Z.geb_spec (nameStackPtr s + 1) 20); [lia|]. simpl.
    now rewrite Htop.
  - destruct (Z.leb_spec (nameStackPtr s + 1) (-1)); [lia|].
    destruct (Z.geb_spec (nameStackPtr s + 1) 20); [lia|]. simpl.
    destruct (Z.ltb_spec (nameStackPtr s + 1) 1).
    + destruct (Z.leb_spec (nameStackPtr s) (-1)); [reflexivity | lia].
    + destruct (Z.leb_spec (nameStackPtr s) (-1)); [lia|].
      destruct (Z.geb_spec (nameStackPtr s) 20); [lia|]. simpl.
      replace (nameStackPtr s + 1 - 1) with (nameStackPtr s) by lia.
      rewrite Hn by lia. reflexivity.
  - destruct (Z.leb_spec (nameStackPtr s) (-1)); [reflexivity|].
    destruct (Z.geb_spec (nameStackPtr s) 20); [lia|]. simpl.
    rewrite Hn by lia. reflexivity.
  - destruct (Z.leb_spec (nameStackPtr s) (-1)); [reflexivity|].
    destruct (Z.geb_spec (nameStackPtr s) 20); [lia|]. simpl.
    destruct (Z.ltb_spec (nameStackPtr s) 1); [reflexivity|].
    rewrite Hn by lia. reflexivity.
Qed.

Lemma PushName_then_top_witness :
  GetName (PushName (lit "Provider") data_stack) = Some (firstn 255 (lit "Provider"))
  /\ GetUpperName (PushName (lit "Provider") data_stack) = GetName data_stack
  /\ depth (PushName (lit "Provider") data_stack) = depth data_stack + 1
  /\ depth (PopName (PushName (lit "Provider") data_stack)) = depth data_stack
  /\ GetName (PopName (PushName (lit "Provider") data_stack)) = GetName data_stack
  /\ GetUpperName (PopName (PushName (lit "Provider") data_stack))
     = GetUpperName data_stack.
Proof.
  apply (PushName_then_top (lit "Provider") data_stack).
  - split; [reflexivity | vm_compute; split; discriminate].
  - vm_compute. reflexivity.
Defined.



(** ** What the transcoder stores *)

Lemma drop_take_1 (l : list Z) (k : nat) (x : Z) :
  l !! k = Some x -> take 1 (drop k l) = [x].
Proof. intros H. now rewrite (drop_S _ _ _ H). Qed.

Lemma drop_take_2 (l : list Z) (k : nat) (x y : Z) :
  l !! k = Some x -> l !! S k = Some y -> take 2 (drop k l) = [x; y].
Proof.
  intros H1 H2. rewrite (drop_S _ _ _ H1), (drop_S _ _ _ H2). reflexivity.
Qed.

Lemma drop_take_3 (l : list Z) (k : nat) (x y z : Z) :
  l !! k = Some x -> l !! S k = Some y -> l !! S (S k) = Some z ->
  take 3 (drop k l) = [x; y; z].
Proof.
  intros H1 H2 H3.
  rewrite (drop_S _ _ _ H1), (drop_S _ _ _ H2), (drop_S _ _ _ H3).
  reflexivity.
Qed.

(** The array after a successful store of a unit: the bytes at
    [bufferUsed ..] are [utf8_bytes], everything before and after them is
    as it was. *)
Lemma UTF16ToUTF8_stored (w : Z) (buffer : list Z) (used size : Z) :
  0 <= w <= 0xFFFF -> 0 <= used -> size < 2 ^ 63 ->
  Z.of_nat (length buffer) = size ->
  used + utf8_length w < size ->
  let '(b', used') := UTF16ToUTF8 w buffer used size in
  used' = used + utf8_length w
  /\ length b' = length buffer
  /\ take (Z.to_nat (utf8_length w)) (drop (Z.to_nat used) b') = utf8_bytes w
  /\ take (Z.to_nat used) b' = take (Z.to_nat used) buffer
  /\ drop (Z.to_nat used') b' = drop (Z.to_nat used') buffer.
Proof.
  intros Hw Hu Hs Hlen Hfit.
  unfold UTF16ToUTF8, UTF16ToUTF8_writes, utf8_length, utf8_bytes in *.
  destruct (Z.gtb_spec w 0x7F) as [H1|H1];
    destruct (Z.gtb_spec w 0x7FF) as [H2|H2];
    destruct (Z.gtb_spec w 0xFFFF) as [H3|H3]; try lia;
    destruct (Z.leb_spec w 0x7F); try lia;
    destruct (Z.leb_spec w 0x7FF); try lia;
    rewrite !wrap64_small by lia.
  - (* three bytes *)
    destruct (Z.geb_spec (used + (1 + 1 + 1)) size) as [?|_]; [lia|].
    change (Z.to_nat (1 + 1 + 1 - 1)) with 2%nat.
    rewrite UTF16ToUTF8_tail_two.
    change (1 + 1 + 1 =? 1) with false. cbv iota beta.
    unfold store_all, store. cbn [fold_left fst snd app].
    replace (Z.to_nat (used + 2)) with (S (S (Z.to_nat used))) by lia.
    replace (Z.to_nat (used + 1)) with (S (Z.to_nat used)) by lia.
    replace (Z.to_nat (used + (1 + 1 + 1))) with (S (S (S (Z.to_nat used)))) by lia.
    change (Z.lor (Z.lor (Z.lor 0 (128 + 64)) 32)) with (Z.lor 224).
    split; [lia|]. split; [now rewrite !length_insert|].
    split; [|split].
    + change (Z.to_nat 3) with 3%nat. apply drop_take_3.
      * rewrite list_lookup_insert_eq; [reflexivity|].
        rewrite !length_insert. lia.
      * rewrite list_lookup_insert_ne by lia.
        rewrite list_lookup_insert_eq; [reflexivity|].
        rewrite !length_insert. lia.
      * rewrite !list_lookup_insert_ne by lia.
        rewrite list_lookup_insert_eq; [reflexivity | lia].
    + rewrite !take_insert_ge by lia. reflexivity.
    + rewrite !drop_insert_lt by lia. reflexivity.
  - (* two bytes *)
    destruct (Z.geb_spec (used + (1 + 1)) size) as [?|_]; [lia|].
    change (Z.to_nat (1 + 1 - 1)) with 1%nat.
    rewrite UTF16ToUTF8_tail_one.
    change (1 + 1 =? 1) with false. cbv iota beta.
    unfold store_all, store. cbn [fold_left fst snd app].
    replace (Z.to_nat (used + 1)) with (S (Z.to_nat used)) by lia.
    replace (Z.to_nat (used + (1 + 1))) with (S (S (Z.to_nat used))) by lia.
    change (Z.lor 0 (128 + 64)) with 192.
    split; [lia|]. split; [now rewrite !length_insert|].
    split; [|split].
    + change (Z.to_nat 2) with 2%nat. apply drop_take_2.
      * rewrite list_lookup_insert_eq; [reflexivity|].
        rewrite !length_insert. lia.
      * rewrite list_lookup_insert_ne by lia.
        rewrite list_lookup_insert_eq; [reflexivity | lia].
    + rewrite !take_insert_ge by lia. reflexivity.
    + rewrite !drop_insert_lt by lia. reflexivity.
  - (* one byte *)
    destruct (Z.geb_spec (used + 1) size) as [?|_]; [lia|].
    change (1 =? 1) with true. cbv iota beta.
    unfold store_all, store. cbn [fold_left fst snd app].
    replace (Z.to_nat (used + 1)) with (S (Z.to_nat used)) by lia.
    split; [lia|]. split; [now rewrite !length_insert|].
    split; [|split].
    + change (Z.to_nat 1) with 1%nat. apply drop_take_1.
      rewrite list_lookup_insert_eq; [reflexivity | lia].
    + rewrite !take_insert_ge by lia. reflexivity.
    + rewrite !drop_insert_lt by lia. reflexivity.
Qed.

Lemma all_units_decode_back : forallb decodes_back all_units = true.
Proof. vm_compute. reflexivity. Qed.

Lemma units_from_In (n : nat) :
  forall from w, from <= w < from + Z.of_nat n -> In w (units_from n from).
Proof.
  induction n as [|k IH]; intros from w H; [lia|].
  simpl. destruct (Z.eq_dec from w) as [->|Hne]; [now left|].
  right. apply IH. lia.
Qed.

Lemma utf8_bytes_decode (w : Z) :
  0 <= w <= 0xFFFF -> utf8_decode (utf8_bytes w) = Some w.
Proof.
  intros Hw. pose proof all_units_decode_back as H.
  rewrite forallb_forall in H.
  assert (Hin : In w all_units)
    by (apply units_from_In; rewrite Z2Nat.id; lia).
  specialize (H w Hin). unfold decodes_back in H.
  destruct (utf8_decode (utf8_bytes w)) as [v|]; [|discriminate].
  f_equal. now apply Z.eqb_eq.
Qed.

(** UTF-8 round trip: after the transcoder has stored a 16-bit unit, the
    bytes it added to the array decode, as standard UTF-8, to that unit;
    the bytes before them and after them are untouched and the array keeps
    its length. *)
Theorem UTF16ToUTF8_decodes_back (w : Z) (buffer : list Z) (used size : Z) :
  0 <= w <= 0xFFFF -> 0 <= used -> size < 2 ^ 63 ->
  Z.of_nat (length buffer) = size ->
  used + utf8_length w < size ->
  let '(b', used') := UTF16ToUTF8 w buffer used size in
  used' = used + utf8_length w
  /\ utf8_decode (take (Z.to_nat (utf8_length w)) (drop (Z.to_nat used) b'))
     = Some w
  /\ take (Z.to_nat used) b' = take (Z.to_nat used) buffer
  /\ drop (Z.to_nat used') b' = drop (Z.to_nat used') buffer
  /\ length b' = length buffer.
Proof.
  intros Hw Hu Hs Hlen Hfit.
  pose proof (UTF16ToUTF8_stored w buffer used size Hw Hu Hs Hlen Hfit) as H.
  destruct (UTF16ToUTF8 w buffer used size) as [b' used'].
  destruct H as (H1 & H2 & H3 & H4 & H5).
  rewrite H3. repeat split; auto. now apply utf8_bytes_decode.
Qed.

Lemma UTF16ToUTF8_decodes_back_witness :
  let '(b', used') := UTF16ToUTF8 0x20AC [0x41; 0; 0; 0; 0; 0x7A] 1 6 in
  used' = 1 + utf8_length 0x20AC
  /\ utf8_decode (take (Z.to_nat (utf8_length 0x20AC)) (drop (Z.to_nat 1) b'))
     = Some 0x20AC
  /\ take (Z.to_nat 1) b' = take (Z.to_nat 1) [0x41; 0; 0; 0; 0; 0x7A]
  /\ drop (Z.to_nat used') b' = drop (Z.to_nat used') [0x41; 0; 0; 0; 0; 0x7A]
  /\ length b' = length [0x41; 0; 0; 0; 0; 0x7A].
Proof.
  apply (UTF16ToUTF8_decodes_back 0x20AC [0x41; 0; 0; 0; 0; 0x7A] 1 6);
    [lia | lia | lia | reflexivity | vm_compute; reflexivity].
Defined.

(** ** Strings stay inside their buffers *)

Lemma UTF16ToUTF8_used_bound (w : Z) (buffer : list Z) (used size : Z) :
  0 <= used < size -> size < 2 ^ 63 ->
  used <= snd (UTF16ToUTF8 w buffer used size) < size
  /\ length (fst (UTF16ToUTF8 w buffer used size)) = length buffer.
Proof.
  intros Hu Hs. unfold UTF16ToUTF8.
  destruct (UTF16ToUTF8_writes w used size) as [ws used'] eqn:E. simpl.
  split; [|apply store_all_length].
  revert E. unfold UTF16ToUTF8_writes.
  destruct (w >? 0x7F); destruct (w >? 0x7FF); destruct (w >? 0xFFFF);
    rewrite !wrap64_small by lia;
    match goal with
    | |- context [?a >=? size] => destruct (Z.geb_spec a size)
    end;
    try (intros [= <- <-]; lia);
    match goal with
    | |- context [?a =? 1] => destruct (a =? 1)
    end;
    try (intros [= <- <-]; lia);
    destruct (UTF16ToUTF8_tail _ _ _); intros [= <- <-]; lia.
Qed.

Lemma ReadUnits_buffer (buf : list Z) (size : Z) (rem : nat) :
  forall idx nb used c b u idx' c',
    0 <= used < size -> size < 2 ^ 63 ->
    ReadUnits buf rem idx nb used size c = (Some (b, u, idx'), c') ->
    0 <= u < size /\ length b = length nb.
Proof.
  induction rem as [|r IH]; intros idx nb used c b u idx' c' Hu Hs; simpl.
  - intros [= <- <- <- <-]. split; [lia | reflexivity].
  - destruct (idx * 2 <? wrap64 (size - 1)).
    + destruct (ReadOne buf 2 c) as [[w|] c1]; [|discriminate].
      destruct (UTF16ToUTF8_used_bound w nb used size Hu Hs) as [H1 H2].
      destruct (UTF16ToUTF8 w nb used size) as [b1 u1]. simpl in *.
      intros H. apply IH in H; [|lia|lia]. destruct H as [H3 H4].
      split; [lia | congruence].
    + intros [= <- <- <- <-]. split; [lia | reflexivity].
Qed.

Lemma cstr_length_le (l : list Z) :
  forall k, l !! k = Some 0 -> (length (cstr l) <= k)%nat.
Proof.
  induction l as [|x l IH]; intros k H; [discriminate|].
  simpl. destruct (Z.eqb_spec x 0); simpl; [lia|].
  destruct k as [|k]; simpl in H; [congruence|].
  apply IH in H. lia.
Qed.

(** The string a successful read leaves in the caller's array is always
    terminated inside the array: the array keeps its length and the C
    string in it is shorter than the array, however long the string on the
    wire is. *)
Theorem ReadPrefixedUnicodeString_terminated (buf nameBuffer : list Z)
    (nameBufferSize : Z) (isNullTerminated : bool) (ctx ctx' : ParseContext)
    (b : list Z) :
  1 <= nameBufferSize < 2 ^ 63 ->
  Z.of_nat (length nameBuffer) = nameBufferSize ->
  ReadPrefixedUnicodeString buf nameBuffer nameBufferSize isNullTerminated ctx
    = (Some b, ctx') ->
  length b = length nameBuffer
  /\ Z.of_nat (length (cstr b)) < nameBufferSize.
Proof.
  intros Hs Hl. unfold ReadPrefixedUnicodeString.
  destruct (ReadOne buf 2 ctx) as [[cnt|] c1]; [|discriminate].
  destruct (ReadUnits buf (Z.to_nat cnt) 0 nameBuffer 0 nameBufferSize c1)
    as [[[[b1 u] idx]|] c2] eqn:E; [|discriminate].
  apply ReadUnits_buffer in E; [|lia|lia]. destruct E as [Hu Hb].
  destruct (Z.geb_spec u nameBufferSize) as [|_]; [lia|].
  intros [= <- <-]. unfold store.
  split; [rewrite length_insert; exact Hb|].
  assert (H : <[Z.to_nat u := wrap8 0]> b1 !! Z.to_nat u = Some 0)
    by (apply list_lookup_insert_eq; lia).
  apply cstr_length_le in H. lia.
Qed.

Lemma ReadPrefixedUnicodeString_terminated_witness :
  let r := ReadPrefixedUnicodeString wire_string (char_array 3) 3 true
             (sample_ctx 12 0) in
  fst r = Some [0x61; 0; 0]
  /\ length [0x61; 0; 0] = length (char_array 3)
  /\ Z.of_nat (length (cstr [0x61; 0; 0])) < 3.
Proof.
  split; [reflexivity|].
  apply (ReadPrefixedUnicodeString_terminated wire_string (char_array 3) 3
           true (sample_ctx 12 0)
           (snd (ReadPrefixedUnicodeString wire_string (char_array 3) 3 true
                   (sample_ctx 12 0)))
           [0x61; 0; 0]); [lia | reflexivity | reflexivity].
Defined.

(** ** Name resolution and the stream position *)

Lemma ReadPrefixedUnicodeString_offset (buf nameBuffer : list Z)
    (nameBufferSize : Z) (isNullTerminated : bool) (ctx ctx' : ParseContext)
    (b : list Z) :
  0 <= offset ctx < 2 ^ 63 ->
  ReadPrefixedUnicodeString buf nameBuffer nameBufferSize isNullTerminated ctx
    = (Some b, ctx') ->
  offset ctx' = offset ctx + 2 + 2 * load buf (data ctx + offset ctx) 2
                + (if isNullTerminated then 2 else 0)
  /\ same_window ctx ctx'.
Proof.
  intros Ho. unfold ReadPrefixedUnicodeString.
  destruct (ReadOne buf 2 ctx) as [[cnt|] c1] eqn:E; [|discriminate].
  destruct (ReadOne_success buf ctx c1 2 cnt) as (Hc & Ho1 & _ & Hw1);
    try lia; [exact E|].
  change (Z.to_nat 2) with 2%nat in Hc.
  pose proof (load_range buf 2 (data ctx + offset ctx)) as Hr.
  change (256 ^ Z.of_nat 2) with 65536 in Hr. rewrite <- Hc in Hr.
  destruct (ReadUnits buf (Z.to_nat cnt) 0 nameBuffer 0 nameBufferSize c1)
    as [[[[b1 u1] idx]|] c2] eqn:E2; [|discriminate].
  apply ReadUnits_offset in E2; try lia.
  destruct E2 as (Ho2 & Hi & Hw2).
  intros [= <- <-]. rewrite <- Hc.
  split.
  - unfold SkipBytes. simpl. rewrite wrap64_small; destruct isNullTerminated; lia.
  - eapply same_window_trans; [exact Hw1|].
    eapply same_window_trans; [exact Hw2|].
    apply same_window_set_offset.
Qed.

(** Where a successful [ReadName] leaves the stream: when the 4-byte chunk
    offset it reads is not the position right after that field, the name is
    fetched through the chunk context and only those 4 bytes are consumed;
    when it is, the name is stored in place and the whole name record
    (link, hash, counted string and terminator) is consumed.  Nothing but
    the offset changes. *)
Theorem ReadName_advance (buf : list Z) (frames : list ParseContext)
    (nameBuffer : list Z) (nameBufferSize : Z) (c c' : ParseContext)
    (b : list Z) :
  0 <= offset c < 2 ^ 62 ->
  0 <= offsetFromChunkStart c < 2 ^ 62 ->
  ReadName buf frames nameBuffer nameBufferSize c = (Some b, c') ->
  let chunkOffset := load buf (data c + offset c) 4 in
  let count := load buf (data c + offset c + 10) 2 in
  same_window c c'
  /\ (offset c + 4 + offsetFromChunkStart c <> chunkOffset ->
      offset c' = offset c + 4)
  /\ (offset c + 4 + offsetFromChunkStart c = chunkOffset ->
      offset c' = offset c + 4 + 4 + 2 + (2 + 2 * count + 2)).
Proof.
  intros Ho Hc. unfold ReadName.
  destruct (nameBufferSize <? 2); [discriminate|].
  destruct (ReadOne buf 4 c) as [[co|] c1] eqn:E1; [|discriminate].
  destruct (ReadOne_success buf c c1 4 co) as (Hco & Ho1 & _ & W1);
    try lia; [exact E1|].
  change (Z.to_nat 4) with 4%nat in Hco.
  assert (Hofs : offsetFromChunkStart c1 = offsetFromChunkStart c)
    by (destruct W1 as (_ & _ & _ & H & _); exact H).
  rewrite Hofs, Ho1, wrap64_small by lia.
  destruct (Z.eqb_spec (offset c + 4 + offsetFromChunkStart c) co) as [Heq|Hne];
    simpl negb; cbv iota.
  - destruct (ReadOne buf 4 c1) as [[d|] c2] eqn:E2; [|discriminate].
    destruct (ReadOne_success buf c1 c2 4 d) as (_ & Ho2 & _ & W2);
      try lia; [exact E2|].
    destruct (ReadOne buf 2 c2) as [[h|] c3] eqn:E3; [|discriminate].
    destruct (ReadOne_success buf c2 c3 2 h) as (_ & Ho3 & _ & W3);
      try lia; [exact E3|].
    intros H.
    assert (Hr3 : 0 <= offset c3 < 2 ^ 63) by lia.
    destruct (ReadPrefixedUnicodeString_offset buf _ _ _ _ _ _ Hr3 H)
      as (Ho4 & W4).
    assert (Hd : data c3 = data c).
    { destruct W1 as (_ & H1 & _), W2 as (_ & H2 & _), W3 as (_ & H3 & _).
      congruence. }
    split; [eauto using same_window_trans|]. split; [intros; congruence|].
    intros _. rewrite Ho4, Hd, Ho3, Ho2, Ho1.
    replace (data c + (offset c + 4 + 4 + 2)) with (data c + offset c + 10)
      by lia.
    lia.
  - destruct (ReadOne buf 4 (set_offset _ _)) as [[d|] t1]; [|discriminate].
    destruct (ReadOne buf 2 t1) as [[h|] t2]; [|discriminate].
    destruct (ReadPrefixedUnicodeString buf _ nameBufferSize true t2)
      as [[x|] t3]; [|discriminate].
    intros [= <- <-]. split; [exact W1|]. split; [intros; lia|].
    intros Heq. rewrite <- Hco in Heq. contradiction.
Qed.

Lemma ReadName_advance_witness :
  let frames := [mkParseContext O 0 0x10000 0x25E 0 StateNormal None [];
                 outer_window] in
  let c := inner_window 0%nat in
  let c' := set_offset 11 c in
  ReadName nested_chunk frames (char_array 256) 256 c
    = (Some (pad_to 256 (lit "Event")), c')
  /\ same_window c c'
  /\ (offset c + 4 + offsetFromChunkStart c
        <> load nested_chunk (data c + offset c) 4 ->
      offset c' = offset c + 4).
Proof.
  cbv zeta.
  assert (E : ReadName nested_chunk
                [mkParseContext O 0 0x10000 0x25E 0 StateNormal None [];
                 outer_window]
                (char_array 256) 256 (inner_window 0%nat)
              = (Some (pad_to 256 (lit "Event")),
                 set_offset 11 (inner_window 0%nat)))
    by (vm_compute; reflexivity).
  split; [exact E|].
  destruct (ReadName_advance nested_chunk
              [mkParseContext O 0 0x10000 0x25E 0 StateNormal None [];
               outer_window]
              (char_array 256) 256 (inner_window 0%nat)
              (set_offset 11 (inner_window 0%nat))
              (pad_to 256 (lit "Event")))
    as (W & Href & _); [simpl; lia | simpl; lia | exact E |].
  split; [exact W | exact Href].
Defined.

(** ** Records of size zero *)

Section ZeroSizeRecords.

Variable strtoul : list Z -> Z.
Variable UnixTimeFromFileTime : Z -> Z.
Variable gmtime_r : Z -> option tm.

Lemma ParseBinXmlPre_end_of_stream (n : nat) (chunk : list Z) (off pos : Z)
    (g : Globals) :
  0 <= pos <= EVTX_CHUNK_SIZE -> byte_at chunk pos = 0 ->
  ParseBinXmlPre strtoul UnixTimeFromFileTime gmtime_r n chunk EVTX_CHUNK_SIZE
    off pos g = (Ret tt, g)
  \/ ParseBinXmlPre strtoul UnixTimeFromFileTime gmtime_r n chunk
       EVTX_CHUNK_SIZE off pos g = (OutOfFuel, g).
Proof.
  intros Hp Hb. unfold ParseBinXmlPre, ParseBinXml.
  destruct n as [|n]; [right; reflexivity|].
  cbn [ParseBinXml_loop]. munfold. cbn [offset dataLen data set_state].
  destruct (Z.ltb_spec pos EVTX_CHUNK_SIZE) as [Hlt|Hge]; [|left; reflexivity].
  change (0 + pos) with pos. rewrite Hb. unfold ParseToken.
  change (0 =? 0) with true. cbv iota. cbn [set_offset dataLen offset].
  destruct n as [|n]; [right; reflexivity|].
  cbn [ParseBinXml_loop]. munfold. cbn [offset dataLen].
  rewrite Z.ltb_irrefl. left; reflexivity.
Qed.

(** A record whose header declares size 0 (with a valid magic, a timestamp
    [gmtime_r] accepts, and a payload that decodes, here the end-of-stream
    token) is walked again and again: the record loop never leaves, whatever
    the step budget. *)
Theorem zero_size_record_never_ends (chunk : list Z) (off inRecordOff : Z) :
  0 <= inRecordOff ->
  inRecordOff + sizeof_EvtxRecordHeader <= EVTX_CHUNK_SIZE ->
  record_magic chunk inRecordOff = 0x00002a2a ->
  record_size chunk inRecordOff = 0 ->
  gmtime_r (UnixTimeFromFileTime (record_timestamp chunk inRecordOff))
    <> None ->
  byte_at chunk (inRecordOff + sizeof_EvtxRecordHeader) = 0 ->
  forall (fuel : nat) (g : Globals),
    RecordLoop strtoul UnixTimeFromFileTime gmtime_r fuel chunk off
      inRecordOff g = None.
Proof.
  intros H0 H1 Hm Hs Ht Hb fuel.
  induction fuel as [|n IH]; intros g; [reflexivity|].
  cbn [RecordLoop].
  unfold EVTX_CHUNK_SIZE, sizeof_EvtxRecordHeader in *.
  rewrite (wrap64_small (inRecordOff + 24)) by lia.
  destruct (Z.gtb_spec (inRecordOff + 24) 65536) as [|_]; [lia|].
  rewrite Hm. change (negb (0x00002a2a =? 0x00002a2a)) with false. cbv iota.
  destruct (gmtime_r (UnixTimeFromFileTime (record_timestamp chunk inRecordOff)))
    as [t|]; [|congruence].
  match goal with
  | |- context [ParseBinXmlPre _ _ _ n chunk ?D off ?p ?g1] =>
      destruct (ParseBinXmlPre_end_of_stream n chunk off p g1) as [E|E];
        [unfold EVTX_CHUNK_SIZE; lia | exact Hb
        | change D with EVTX_CHUNK_SIZE; rewrite E
        | change D with EVTX_CHUNK_SIZE; rewrite E]
  end; [|reflexivity].
  rewrite Hs, Z.add_0_r, wrap64_small by lia. apply IH.
Qed.

End ZeroSizeRecords.

Lemma zero_size_record_never_ends_witness :
  RecordLoop sample_strtoul sample_UnixTimeFromFileTime sample_gmtime_r 1000
    zero_size_chunk sizeof_EvtxHeader sizeof_EvtxChunkHeader fresh_globals
  = None.
Proof.
  apply zero_size_record_never_ends;
    try (vm_compute; reflexivity); vm_compute; discriminate.
Defined.

(** ** What the decoder keeps of the globals *)

Section GlobalsInvariant.

Variable strtoul : list Z -> Z.
Variable UnixTimeFromFileTime : Z -> Z.
Variable gmtime_r : Z -> option tm.
Variable buf : list Z.

(** A property of the globals that printing, template registration and the
    name stack operations keep. *)
Variable I : Globals -> Prop.
Hypothesis I_emit : forall p g, I g -> I (emit p g).
Hypothesis I_knownIDs : forall m g, I g -> I (set_knownIDs m g).
Hypothesis I_push :
  forall n g, I g -> I (set_nameStack (PushName n (nameStack g)) g).
Hypothesis I_pop :
  forall g, I g -> I (set_nameStack (PopName (nameStack g)) g).

Lemma keeps_ret {A : Type} (a : A) : keeps I (ret a).
Proof. intros c g H. exact H. Qed.

Lemma keeps_fail {A : Type} : keeps I (@fail A).
Proof. intros c g H. exact H. Qed.

Lemma keeps_out_of_fuel {A : Type} : keeps I (@out_of_fuel A).
Proof. intros c g H. exact H. Qed.

Lemma keeps_rd {A : Type} (r : ParseContext -> option A * ParseContext) :
  keeps I (rd r).
Proof. intros c g H. unfold rd. destruct (r c) as [[a|] c']; exact H. Qed.

Lemma keeps_modify_ctx (f : ParseContext -> ParseContext) :
  keeps I (modify_ctx f).
Proof. intros c g H. exact H. Qed.

Lemma keeps_printf (f : string) (a : list PrintfArg) : keeps I (printf f a).
Proof. intros c g H. apply I_emit, H. Qed.

Lemma keeps_bind {A B : Type} (m : M A) (f : A -> M B) :
  keeps I m -> (forall a, keeps I (f a)) -> keeps I (bind m f).
Proof.
  intros Hm Hf c g H. unfold bind. specialize (Hm c g H).
  destruct (m c g) as [[[a| |] c1] g1]; simpl in *; auto.
  apply Hf, Hm.
Qed.

Lemma keeps_get_ctx_bind {B : Type} (f : ParseContext -> M B) :
  (forall c, keeps I (f c)) -> keeps I (bind get_ctx f).
Proof. intros Hf c g H. apply (Hf c c g H). Qed.

Lemma keeps_get_globals_bind {B : Type} (f : Globals -> M B) :
  (forall g0, I g0 -> keeps I (f g0)) -> keeps I (bind get_globals f).
Proof. intros Hf c g H. apply (Hf g H c g H). Qed.

Lemma keeps_set (g' : Globals) : I g' -> keeps I (modify_globals (fun _ => g')).
Proof. intros H c g _. exact H. Qed.

Lemma keeps_update (f : TemplateDescription -> TemplateDescription)
    (c0 : ParseContext) :
  keeps I (modify_globals (update_current_template f c0)).
Proof.
  intros c g H. simpl. unfold update_current_template.
  destruct (currentTemplatePtr c0); [apply I_knownIDs|]; exact H.
Qed.

Lemma keeps_push (n : list Z) :
  keeps I (modify_globals
             (fun g => set_nameStack (PushName n (nameStack g)) g)).
Proof. intros c g H. apply I_push, H. Qed.

Lemma keeps_pop :
  keeps I (modify_globals
             (fun g => set_nameStack (PopName (nameStack g)) g)).
Proof. intros c g H. apply I_pop, H. Qed.

Lemma keeps_on_ctx {A : Type} (sub : ParseContext) (m : M A) :
  keeps I m -> keeps I (on_ctx sub m).
Proof.
  intros Hm c g H. unfold on_ctx. specialize (Hm sub g H).
  destruct (m sub g) as [[[a| |] s1] g1]; exact Hm.
Qed.

Lemma keeps_on_ctx_ignoring {A : Type} (sub : ParseContext) (m : M A) :
  keeps I m -> keeps I (on_ctx_ignoring sub m).
Proof.
  intros Hm c g H. unfold on_ctx_ignoring. specialize (Hm sub g H).
  destruct (m sub g) as [[[a| |] s1] g1]; exact Hm.
Qed.

Lemma keeps_SetState (s : XmlParseState) : keeps I (SetState s).
Proof.
  intros c g H. unfold SetState.
  destruct (XmlParseState_eqb s (state c)); [exact H|].
  destruct (state c); simpl; [exact H | apply I_pop, H].
Qed.

Lemma keeps_IsKnownID (id : Z) : keeps I (IsKnownID id).
Proof.
  intros c g H. unfold IsKnownID. destruct (knownIDs g !! id); exact H.
Qed.

Lemma keeps_ReadArgumentMap (n : Z) : keeps I (ReadArgumentMap buf n).
Proof.
  intros c g H. unfold ReadArgumentMap.
  destruct (ReadData buf 2 n c) as [[a|] c']; [exact H | apply I_emit, H].
Qed.

Ltac keeps_step :=
  cbv beta;
  lazymatch goal with
  | |- keeps _ (ret _) => apply keeps_ret
  | |- keeps _ fail => apply keeps_fail
  | |- keeps _ out_of_fuel => apply keeps_out_of_fuel
  | |- keeps _ (rd _) => apply keeps_rd
  | |- keeps _ (modify_ctx _) => apply keeps_modify_ctx
  | |- keeps _ (printf _ _) => apply keeps_printf
  | |- keeps _ (modify_globals (update_current_template _ _)) =>
      apply keeps_update
  | |- keeps _ (modify_globals
                  (fun g => set_nameStack (PushName _ (nameStack g)) g)) =>
      apply keeps_push
  | |- keeps _ (modify_globals
                  (fun g => set_nameStack (PopName (nameStack g)) g)) =>
      apply keeps_pop
  | |- keeps _ (SetState _) => apply keeps_SetState
  | |- keeps _ (IsKnownID _) => apply keeps_IsKnownID
  | |- keeps _ (ReadArgumentMap _ _) => apply keeps_ReadArgumentMap
  | |- keeps _ (bind get_ctx _) => apply keeps_get_ctx_bind; intros ?
  | |- keeps _ (bind get_globals _) => apply keeps_get_globals_bind; intros ? ?
  | |- keeps _ (bind _ _) => apply keeps_bind; [|intros ?]
  | |- keeps _ (let '(_, _) := ?x in _) => destruct x
  | |- keeps _ (if ?b then _ else _) => destruct b
  | |- keeps _ (match ?x with Some _ => _ | None => _ end) => destruct x
  end.

Ltac keeps_start := unfold mbind, M_bind; cbv zeta.

Lemma keeps_ParseValueText : keeps I (ParseValueText buf).
Proof. unfold ParseValueText. keeps_start. repeat keeps_step. Qed.

Lemma keeps_ParseAttributes (frames : list ParseContext) :
  keeps I (ParseAttributes buf frames).
Proof. unfold ParseAttributes. keeps_start. repeat keeps_step. Qed.

Lemma keeps_ParseOpenStartElement (frames : list ParseContext) (h : bool) :
  keeps I (ParseOpenStartElement buf frames h).
Proof. unfold ParseOpenStartElement. keeps_start. repeat keeps_step. Qed.

Lemma keeps_ParseCloseElement : keeps I ParseCloseElement.
Proof. unfold ParseCloseElement. keeps_start. repeat keeps_step. Qed.

Lemma keeps_ParseOptionalSubstitution :
  keeps I (ParseOptionalSubstitution buf).
Proof. unfold ParseOptionalSubstitution. keeps_start. repeat keeps_step. Qed.

Lemma keeps_StringLoop (rem : nat) :
  forall b u size, keeps I (StringLoop buf rem b u size).
Proof.
  induction rem as [|r IH]; intros b u size; cbn [StringLoop]; keeps_start;
    repeat keeps_step.
  apply IH.
Qed.

Lemma keeps_BinaryLoop (rem : nat) : keeps I (BinaryLoop buf rem).
Proof.
  induction rem as [|r IH]; cbn [BinaryLoop]; keeps_start; repeat keeps_step.
  exact IH.
Qed.

Lemma keeps_SidLoop (rem : nat) :
  forall idx argLen, keeps I (SidLoop buf rem idx argLen).
Proof.
  induction rem as [|r IH]; intros idx argLen; cbn [SidLoop]; keeps_start;
    repeat keeps_step.
  apply IH.
Qed.

Lemma keeps_StringArrayLoop (fuel : nat) :
  forall inString, keeps I (StringArrayLoop buf fuel inString).
Proof.
  induction fuel as [|f IH]; intros inString; simpl; [apply keeps_out_of_fuel|].
  intros c g H.
  destruct (ReadOne buf 2 c) as [[w|] c']; [|exact H].
  destruct (_ =? 0x0000).
  - destruct inString; [|apply IH, H].
    apply (keeps_bind (printf "'," []) (fun _ => StringArrayLoop buf f false));
      [apply keeps_printf | intros _; apply IH | exact H].
  - destruct (UTF16ToUTF8 _ _ _ _) as [b u].
    match goal with
    | |- I (snd ((?m ;; ?k) c' g)) =>
        apply (keeps_bind m (fun _ => k));
          [apply keeps_printf | intros _; apply IH | exact H]
    end.
Qed.

Section Nested.

Variable fuel : nat.
Variable nested : list ParseContext -> Z -> M unit.
Hypothesis keeps_nested : forall frames z, keeps I (nested frames z).

Lemma keeps_ParseArgument (frames : list ParseContext) (argLen argType : Z)
    (argPair : TemplateArgPair) :
  keeps I (ParseArgument UnixTimeFromFileTime gmtime_r buf fuel nested frames
             argLen argType argPair).
Proof.
  unfold ParseArgument. keeps_start.
  repeat
    (cbv beta;
     lazymatch goal with
     | |- keeps _ (StringLoop _ _ _ _ _) => apply keeps_StringLoop
     | |- keeps _ (BinaryLoop _ _) => apply keeps_BinaryLoop
     | |- keeps _ (SidLoop _ _ _ _) => apply keeps_SidLoop
     | |- keeps _ (on_ctx_ignoring _ _) =>
         apply keeps_on_ctx_ignoring, keeps_nested
     | |- keeps _ (on_ctx _ _) => apply keeps_on_ctx, keeps_StringArrayLoop
     | |- _ => keeps_step
     end).
Qed.

Lemma keeps_ArgumentLoop (frames : list ParseContext) (argumentMap : list Z)
    (rem : nat) :
  forall idx,
    keeps I (ArgumentLoop UnixTimeFromFileTime gmtime_r buf fuel nested frames
               argumentMap rem idx).
Proof.
  induction rem as [|r IH]; intros idx; simpl; [apply keeps_ret|].
  apply keeps_bind; [|intros _; apply IH].
  unfold ArgumentSlot. cbv zeta.
  apply keeps_get_ctx_bind; intros c0.
  apply keeps_get_globals_bind; intros g0 _.
  destruct (current_template c0 g0 ≫= _);
    [apply keeps_ParseArgument | apply keeps_modify_ctx].
Qed.

Lemma keeps_print_fixed_all (fs : list TemplateFixedPair) :
  keeps I (print_fixed_all strtoul fs).
Proof.
  induction fs as [|f r IH]; simpl; [apply keeps_ret|].
  apply keeps_bind; [|intros _; exact IH].
  unfold print_fixed. keeps_start. repeat keeps_step.
Qed.

Lemma keeps_ParseTemplateInstance (frames : list ParseContext) :
  keeps I (ParseTemplateInstance strtoul UnixTimeFromFileTime gmtime_r buf
             fuel nested frames).
Proof.
  unfold ParseTemplateInstance.
  apply keeps_bind; [apply keeps_rd | intros b].
  destruct (negb (b =? 0x01)); [apply keeps_fail|].
  apply keeps_bind; [apply keeps_rd | intros shortID].
  apply keeps_bind; [apply keeps_rd | intros tempResLen].
  apply keeps_bind; [apply keeps_rd | intros numArguments].
  apply keeps_bind; [apply keeps_IsKnownID | intros known].
  apply keeps_bind.
  - destruct known; [apply keeps_ret|].
    apply keeps_bind; [apply keeps_rd | intros longID].
    apply keeps_bind; [apply keeps_rd | intros templateBodyLen].
    apply keeps_get_ctx_bind; intros c0.
    apply keeps_get_globals_bind; intros g0 Hg0. cbv zeta.
    unfold RegisterID. cbv zeta.
    destruct (knownIDs (set_knownIDs _ g0) !! shortID).
    + apply keeps_bind; [apply keeps_set, I_knownIDs, Hg0 | intros _].
      apply keeps_bind; [apply keeps_on_ctx, keeps_nested | intros [u tc]].
      keeps_start. repeat keeps_step.
    + apply keeps_bind; [apply keeps_set, I_knownIDs, Hg0 | intros _].
      apply keeps_fail.
  - intros n.
    apply keeps_get_ctx_bind; intros c0.
    apply keeps_get_globals_bind; intros g0 _.
    apply keeps_bind; [apply keeps_print_fixed_all | intros _]. cbv zeta.
    apply keeps_bind; [apply keeps_ReadArgumentMap | intros argumentMap].
    apply keeps_ArgumentLoop.
Qed.

Lemma keeps_ParseToken (frames : list ParseContext) (tag : Z) :
  keeps I (ParseToken strtoul UnixTimeFromFileTime gmtime_r buf fuel nested
             frames tag).
Proof.
  unfold ParseToken, ParseCloseStartElement.
  repeat first
    [ apply keeps_ParseOpenStartElement | apply keeps_ParseCloseElement
    | apply keeps_ParseValueText | apply keeps_ParseAttributes
    | apply keeps_ParseTemplateInstance | apply keeps_ParseOptionalSubstitution
    | apply keeps_SetState | apply keeps_ret | apply keeps_fail
    | apply keeps_modify_ctx
    | match goal with
      | |- keeps _ (if ?b then _ else _) => destruct b
      end ].
Qed.

End Nested.

Lemma keeps_ParseBinXml_loop (fuel : nat) :
  forall frames,
    keeps I (ParseBinXml_loop strtoul UnixTimeFromFileTime gmtime_r buf fuel
               frames).
Proof.
  induction fuel as [|f IH]; intros frames; [apply keeps_out_of_fuel|].
  cbn [ParseBinXml_loop].
  apply keeps_get_ctx_bind; intros c0.
  destruct (offset c0 <? dataLen c0); [|apply keeps_ret].
  apply keeps_bind; [apply keeps_modify_ctx | intros _].
  apply keeps_bind; [|intros _; apply IH].
  apply keeps_ParseToken. intros frames' z.
  apply keeps_bind; [apply keeps_modify_ctx | intros _; apply IH].
Qed.

Lemma keeps_ParseBinXml (fuel : nat) (frames : list ParseContext) (z : Z) :
  keeps I (ParseBinXml strtoul UnixTimeFromFileTime gmtime_r buf fuel frames z).
Proof.
  unfold ParseBinXml.
  apply keeps_bind; [apply keeps_modify_ctx | intros _].
  apply keeps_ParseBinXml_loop.
Qed.

End GlobalsInvariant.

Section WalkerInvariant.

Variable strtoul : list Z -> Z.
Variable UnixTimeFromFileTime : Z -> Z.
Variable gmtime_r : Z -> option tm.

Variable I : Globals -> Prop.
Hypothesis I_emit : forall p g, I g -> I (emit p g).
Hypothesis I_knownIDs : forall m g, I g -> I (set_knownIDs m g).
Hypothesis I_push :
  forall n g, I g -> I (set_nameStack (PushName n (nameStack g)) g).
Hypothesis I_pop :
  forall g, I g -> I (set_nameStack (PopName (nameStack g)) g).
Hypothesis I_reset :
  forall g, I g -> I (set_nameStack (NameStack_Reset (nameStack g)) g).

Lemma keeps_ParseBinXmlPre (n : nat) (chunk : list Z) (len off pos : Z)
    (g : Globals) :
  I g ->
  I (snd (ParseBinXmlPre strtoul UnixTimeFromFileTime gmtime_r n chunk len off
            pos g)).
Proof.
  intros H. unfold ParseBinXmlPre.
  pose proof (keeps_ParseBinXml strtoul UnixTimeFromFileTime gmtime_r chunk I
                I_emit I_knownIDs I_push I_pop n [] off
                (mkParseContext O 0 len pos 0 StateNormal None []) g H) as K.
  destruct (ParseBinXml _ _ _ _ _ _ _ _ _) as [[r c'] g']. exact K.
Qed.

Lemma keeps_RecordLoop (fuel : nat) (chunk : list Z) (off : Z) :
  forall inRecordOff g res e at' g',
    I g ->
    RecordLoop strtoul UnixTimeFromFileTime gmtime_r fuel chunk off inRecordOff g
      = Some (res, e, at', g') ->
    I g'.
Proof.
  induction fuel as [|n IH]; intros inRecordOff g res e at' g' H;
    [discriminate|].
  cbn [RecordLoop].
  destruct (_ >? EVTX_CHUNK_SIZE); [intros [= <- <- <- <-]; exact H|].
  destruct (negb _); [intros [= <- <- <- <-]; exact H|].
  destruct (gmtime_r _) as [t|]; [|intros [= <- <- <- <-]; exact H].
  match goal with
  | |- context [ParseBinXmlPre _ _ _ n chunk ?D off ?p ?g1] =>
      pose proof (keeps_ParseBinXmlPre n chunk D off p g1 (I_emit _ _ H)) as K;
      destruct (ParseBinXmlPre strtoul UnixTimeFromFileTime gmtime_r n chunk D
                  off p g1) as [[[]| |] g2]
  end; simpl in K.
  - apply IH, I_emit, K.
  - intros [= <- <- <- <-]; exact K.
  - discriminate.
Qed.

Lemma keeps_ChunkLoop (fuel : nat) (f : File) :
  forall off g res g',
    I g ->
    ChunkLoop strtoul UnixTimeFromFileTime gmtime_r fuel f off g
      = Some (res, g') ->
    I g'.
Proof.
  induction fuel as [|n IH]; intros off g res g' H; [discriminate|].
  cbn [ChunkLoop]. unfold ChunkIteration.
  assert (HR : I (ChunkReset g))
    by (unfold ChunkReset, ResetTemplates; cbv zeta;
        apply I_reset, I_knownIDs, H).
  destruct (negb (wrap64 (lseek f off) =? off));
    [intros [= <- <-]; exact HR|].
  cbv zeta.
  destruct (negb (Z.of_nat _ =? _)); [intros [= <- <-]; exact HR|].
  destruct (negb (bool_decide _)); [intros [= <- <-]; exact HR|].
  destruct (RecordLoop _ _ _ n _ off _ _) as [[[[r e] i] g1]|] eqn:E;
    [|discriminate].
  apply keeps_RecordLoop in E; [|exact HR].
  destruct (i >? _); [intros [= <- <-]; exact E|].
  destruct r; [apply IH, E | intros [= <- <-]; exact E].
Qed.

Lemma keeps_ParseEVTX (fuel : nat) (file : option File) (fileName : list Z)
    (g : Globals) :
  I g ->
  match ParseEVTX strtoul UnixTimeFromFileTime gmtime_r fuel file fileName g
  with
  | Some (_, g') => I g'
  | None => True
  end.
Proof.
  intros H. unfold ParseEVTX. destruct file as [f|]; [|exact H].
  unfold ParseEVTXInt. cbv zeta.
  destruct (negb (Z.of_nat _ =? _)); [apply I_emit, H|].
  destruct (negb (header_version _ =? _)); [apply I_emit, H|].
  destruct (ChunkLoop _ _ _ fuel f _ g) as [[r g1]|] eqn:E; [|exact Logic.I].
  apply keeps_ChunkLoop in E; [|exact H].
  destruct r; [exact E | apply I_emit, E].
Qed.

End WalkerInvariant.

(** ** The name stack stays in bounds *)

Lemma NameStack_ok_PushName (n : list Z) (s : NameStack) :
  NameStack_ok s -> NameStack_ok (PushName n s).
Proof. apply (NameStack_ok_run_op (OpPushName n)). Qed.

Lemma NameStack_ok_PopName (s : NameStack) :
  NameStack_ok s -> NameStack_ok (PopName s).
Proof. apply (NameStack_ok_run_op OpPopName). Qed.

Lemma NameStack_ok_Reset (s : NameStack) :
  NameStack_ok s -> NameStack_ok (NameStack_Reset s).
Proof. apply (NameStack_ok_run_op OpReset). Qed.

(** Whatever bytes the decoder is given and however it ends (returning,
    failing or still running), the name stack keeps its twenty slots and
    its top index stays between -1 and 19: no token sequence makes
    [PushName], [PopName] or [SetState] index the array out of bounds. *)
Theorem ParseBinXml_keeps_name_stack (strtoul : list Z -> Z)
    (UnixTimeFromFileTime : Z -> Z) (gmtime_r : Z -> option tm)
    (buf : list Z) (fuel : nat) (frames : list ParseContext)
    (chunkOffsetInFile : Z) (c : ParseContext) (g : Globals) :
  NameStack_ok (nameStack g) ->
  NameStack_ok
    (nameStack
       (snd (ParseBinXml strtoul UnixTimeFromFileTime gmtime_r buf fuel
               frames chunkOffsetInFile c g))).
Proof.
  apply (keeps_ParseBinXml strtoul UnixTimeFromFileTime gmtime_r buf
           (fun g0 => NameStack_ok (nameStack g0))).
  - intros p g0 H. exact H.
  - intros m g0 H. exact H.
  - intros n g0 H. apply NameStack_ok_PushName, H.
  - intros g0 H. apply NameStack_ok_PopName, H.
Qed.

Lemma ParseBinXml_keeps_name_stack_witness :
  NameStack_ok
    (nameStack
       (snd (ParseBinXml sample_strtoul sample_UnixTimeFromFileTime
               sample_gmtime_r value_text_bytes 10 [] 0 (data_ctx 9 0)
               data_globals))).
Proof.
  apply ParseBinXml_keeps_name_stack.
  split; [reflexivity | split; vm_compute; discriminate].
Defined.

(** The same for a whole file: when the walker returns, the name stack is
    within its bounds, for every file content. *)
Theorem ParseEVTX_keeps_name_stack (strtoul : list Z -> Z)
    (UnixTimeFromFileTime : Z -> Z) (gmtime_r : Z -> option tm)
    (fuel : nat) (file : option File) (fileName : list Z) (g : Globals) :
  NameStack_ok (nameStack g) ->
  match ParseEVTX strtoul UnixTimeFromFileTime gmtime_r fuel file fileName g
  with
  | Some (_, g') => NameStack_ok (nameStack g')
  | None => True
  end.
Proof.
  apply (keeps_ParseEVTX strtoul UnixTimeFromFileTime gmtime_r
           (fun g0 => NameStack_ok (nameStack g0))).
  - intros p g0 H. exact H.
  - intros m g0 H. exact H.
  - intros n g0 H. apply NameStack_ok_PushName, H.
  - intros g0 H. apply NameStack_ok_PopName, H.
  - intros g0 H. apply NameStack_ok_Reset, H.
Qed.

Lemma ParseEVTX_keeps_name_stack_witness :
  match sample_ParseEVTX 60 template_file fresh_globals with
  | Some (_, g') => NameStack_ok (nameStack g')
  | None => True
  end.
Proof.
  apply ParseEVTX_keeps_name_stack.
  split; [reflexivity | split; vm_compute; discriminate].
Defined.

(** ** Attributes, elements and the depth of the name stack *)

Lemma ReadName_same_window (buf : list Z) (frames : list ParseContext)
    (nb : list Z) (size : Z) (c : ParseContext) :
  same_window c (snd (ReadName buf frames nb size c)).
Proof.
  unfold ReadName. cbv zeta.
  destruct (size <? 2); [apply same_window_refl|].
  pose proof (ReadOne_same_window buf 4 c) as W1.
  destruct (ReadOne buf 4 c) as [[co|] c1]; simpl in W1; [|exact W1].
  destruct (negb _).
  - destruct (ReadOne buf 4 (set_offset _ _)) as [[d|] t1]; [|exact W1].
    destruct (ReadOne buf 2 t1) as [[h|] t2]; [|exact W1].
    destruct (ReadPrefixedUnicodeString buf _ size true t2) as [[b|] t3];
      exact W1.
  - pose proof (ReadOne_same_window buf 4 c1) as W2.
    destruct (ReadOne buf 4 c1) as [[d|] c2]; simpl in W2;
      [|eapply same_window_trans; eauto].
    pose proof (ReadOne_same_window buf 2 c2) as W3.
    destruct (ReadOne buf 2 c2) as [[h|] c3]; simpl in W3;
      [|eauto using same_window_trans].
    pose proof (ReadPrefixedUnicodeString_same_window buf (store nb 0 0) size
                  true c3) as W4.
    eauto using same_window_trans.
Qed.

Lemma SetState_effect (s : XmlParseState) (c : ParseContext) (g : Globals) :
  SetState s c g
  = (Ret tt, set_state s c,
     match s, state c with
     | StateNormal, StateInAttribute =>
         set_nameStack (PopName (nameStack g)) g
     | _, _ => g
     end).
Proof.
  unfold SetState. destruct s, c as [cc d dl o ofs [] tp cv]; reflexivity.
Qed.

Lemma ParseAttributes_effect (buf : list Z) (frames : list ParseContext)
    (c c1 : ParseContext) (g g1 : Globals) :
  ParseAttributes buf frames c g = (Ret tt, c1, g1) ->
  state c1 = StateInAttribute
  /\ exists name, nameStack g1 = PushName name (nameStack g).
Proof.
  unfold ParseAttributes. munfold.
  destruct (ReadName buf frames (char_array 256) 256 c) as [[nb|] c0];
    [|discriminate].
  rewrite SetState_effect. intros [= <- <-].
  split; [reflexivity|]. exists (cstr nb). reflexivity.
Qed.

Lemma ParseValueText_effect (buf : list Z) (c c1 : ParseContext)
    (g g1 : Globals) :
  ParseValueText buf c g = (Ret tt, c1, g1) ->
  state c1 = StateNormal
  /\ nameStack g1
     = match state c with
       | StateInAttribute => PopName (nameStack g)
       | StateNormal => nameStack g
       end.
Proof.
  unfold ParseValueText. munfold.
  pose proof (ReadOne_same_window buf 1 c) as W1.
  destruct (ReadOne buf 1 c) as [[t|] c0]; [|discriminate]. simpl in W1.
  pose proof (ReadPrefixedUnicodeString_same_window buf (char_array 256) 256
                false c0) as W2.
  destruct (ReadPrefixedUnicodeString buf (char_array 256) 256 false c0)
    as [[v|] c2]; [|discriminate]. simpl in W2.
  assert (Hs : state c2 = state c).
  { destruct W1 as (_ & _ & _ & _ & H1 & _), W2 as (_ & _ & _ & _ & H2 & _).
    congruence. }
  assert (Hgen : forall g0, nameStack g0 = nameStack g ->
            SetState StateNormal c2 g0
            = (Ret tt, set_state StateNormal c2,
               match state c with
               | StateInAttribute => set_nameStack (PopName (nameStack g)) g0
               | StateNormal => g0
               end)).
  { intros g0 Hn. rewrite SetState_effect, Hs, Hn. reflexivity. }
  destruct (GetProperKeyName c2 g) as [k|];
    [destruct (match GetUpperName (nameStack g) with
               | Some u => _ | None => true end)|];
    rewrite Hgen;
    try (unfold update_current_template;
         destruct (currentTemplatePtr c2); reflexivity);
    try reflexivity;
    intros [= <- <-]; (split; [reflexivity|]);
    unfold update_current_template;
    destruct (state c), (currentTemplatePtr c2); reflexivity.
Qed.

(** An attribute followed by its value text leaves the depth of the name
    stack as it was, with one exception: on a full stack (20 names) the
    attribute's name is not pushed, yet the value still pops, so the name of
    the enclosing element is lost. *)
Theorem attribute_then_value_depth (buf : list Z) (frames : list ParseContext)
    (c c1 c2 : ParseContext) (g g1 g2 : Globals) :
  NameStack_ok (nameStack g) ->
  ParseAttributes buf frames c g = (Ret tt, c1, g1) ->
  ParseValueText buf c1 g1 = (Ret tt, c2, g2) ->
  state c2 = StateNormal
  /\ depth (nameStack g2) = Z.min (depth (nameStack g)) 19.
Proof.
  intros [Hl Hp] HA HV.
  apply ParseAttributes_effect in HA. destruct HA as (Hs & name & Hn).
  apply ParseValueText_effect in HV. destruct HV as (Hs2 & Hn2).
  split; [exact Hs2|].
  rewrite Hn2, Hs, Hn. unfold depth, PopName, PushName,
    MAX_NAME_STACK_DEPTH, INVALID_STACK_DEPTH.
  destruct (Z.geb_spec (nameStackPtr (nameStack g) + 1) 20); simpl.
  - destruct (Z.gtb_spec (nameStackPtr (nameStack g)) (-1)); simpl; lia.
  - destruct (Z.gtb_spec (nameStackPtr (nameStack g) + 1) (-1)); simpl; lia.
Qed.

Lemma attribute_then_value_depth_witness :
  let c1 := mkParseContext O 0 21 16 0 StateInAttribute None [] in
  let c2 := mkParseContext O 0 21 21 0 StateNormal None (lit "b") in
  let pushed g := set_nameStack (PushName (lit "a") (nameStack g)) g in
  let popped g := set_nameStack (PopName (nameStack g)) g in
  (ParseAttributes attribute_bytes [] attribute_ctx fresh_globals
   = (Ret tt, c1, pushed fresh_globals)
   /\ ParseValueText attribute_bytes c1 (pushed fresh_globals)
      = (Ret tt, c2, popped (pushed fresh_globals))
   /\ state c2 = StateNormal
   /\ depth (nameStack (popped (pushed fresh_globals)))
      = Z.min (depth (nameStack fresh_globals)) 19)
  /\ (depth (nameStack full_globals) = 20
      /\ ParseAttributes attribute_bytes [] attribute_ctx full_globals
         = (Ret tt, c1, pushed full_globals)
      /\ ParseValueText attribute_bytes c1 (pushed full_globals)
         = (Ret tt, c2, popped (pushed full_globals))
      /\ state c2 = StateNormal
      /\ depth (nameStack (popped (pushed full_globals)))
         = Z.min (depth (nameStack full_globals)) 19).
Proof.
  cbv zeta.
  assert (A1 : ParseAttributes attribute_bytes [] attribute_ctx fresh_globals
               = (Ret tt, mkParseContext O 0 21 16 0 StateInAttribute None [],
                  set_nameStack (PushName (lit "a") (nameStack fresh_globals))
                    fresh_globals))
    by (vm_compute; reflexivity).
  assert (V1 : ParseValueText attribute_bytes
                 (mkParseContext O 0 21 16 0 StateInAttribute None [])
                 (set_nameStack (PushName (lit "a") (nameStack fresh_globals))
                    fresh_globals)
               = (Ret tt, mkParseContext O 0 21 21 0 StateNormal None (lit "b"),
                  set_nameStack
                    (PopName
                       (nameStack
                          (set_nameStack
                             (PushName (lit "a") (nameStack fresh_globals))
                             fresh_globals)))
                    (set_nameStack
                       (PushName (lit "a") (nameStack fresh_globals))
                       fresh_globals)))
    by (vm_compute; reflexivity).
  assert (A2 : ParseAttributes attribute_bytes [] attribute_ctx full_globals
               = (Ret tt, mkParseContext O 0 21 16 0 StateInAttribute None [],
                  set_nameStack (PushName (lit "a") (nameStack full_globals))
                    full_globals))
    by (vm_compute; reflexivity).
  assert (V2 : ParseValueText attribute_bytes
                 (mkParseContext O 0 21 16 0 StateInAttribute None [])
                 (set_nameStack (PushName (lit "a") (nameStack full_globals))
                    full_globals)
               = (Ret tt, mkParseContext O 0 21 21 0 StateNormal None (lit "b"),
                  set_nameStack
                    (PopName
                       (nameStack
                          (set_nameStack
                             (PushName (lit "a") (nameStack full_globals))
                             full_globals)))
                    (set_nameStack
                       (PushName (lit "a") (nameStack full_globals))
                       full_globals)))
    by (vm_compute; reflexivity).
  assert (K1 : NameStack_ok (nameStack fresh_globals))
    by (split; [vm_compute; reflexivity | split; vm_compute; discriminate]).
  assert (K2 : NameStack_ok (nameStack full_globals))
    by (split; [vm_compute; reflexivity | split; vm_compute; discriminate]).
  split.
  - split; [exact A1|]. split; [exact V1|].
    exact (attribute_then_value_depth _ _ _ _ _ _ _ _ K1 A1 V1).
  - split; [vm_compute; reflexivity|]. split; [exact A2|]. split; [exact V2|].
    exact (attribute_then_value_depth _ _ _ _ _ _ _ _ K2 A2 V2).
Defined.

(** ** The template cache *)

(** Registering a template id cannot fail: the id is then known, bound to
    an empty description (whatever it was bound to before), and
    [IsKnownID] makes it the current template; every other id is left as
    it was; and after [ResetTemplates] the id is not known any more. *)
Theorem RegisterID_then_known (id other : Z) (c : ParseContext) (g : Globals) :
  fst (RegisterID id g) = Some id
  /\ knownIDs (snd (RegisterID id g)) !! id = Some TemplateDescription_new
  /\ IsKnownID id c (snd (RegisterID id g))
     = (Ret true, set_currentTemplatePtr (Some id) c, snd (RegisterID id g))
  /\ (other <> id ->
      knownIDs (snd (RegisterID id g)) !! other = knownIDs g !! other)
  /\ IsKnownID id c (ResetTemplates (snd (RegisterID id g)))
     = (Ret false, c, ResetTemplates (snd (RegisterID id g))).
Proof.
  unfold RegisterID, IsKnownID, ResetTemplates. cbv zeta. simpl.
  rewrite lookup_insert_eq. simpl. rewrite lookup_insert_eq.
  repeat split.
  intros Hne. rewrite lookup_insert_ne by congruence. reflexivity.
Qed.
